(** * Blockscout feed classifier (packages/blockchain-api/src/blockscout.ts)

    Shallow embedding of [BlockscoutAPI]: the address registry
    ([ensureTokenAddresses], [getTokenAtAddress], ...), the grouping of raw
    token-transfer rows by transaction hash, the three feed variants
    ([getFeedEvents], [getFeedRewards], [getTokenTransactions]) and the
    module-level [resolveTransferEventType].

    Conventions of the embedding:
    - JS strings are [string]; [toLowerCase] is ASCII lower-casing (addresses
      are hexadecimal ASCII).
    - [new BigNumber(s)] on the decimal integer strings returned by
      blockscout is the integer [bigNumber s]; BigNumber results are exact
      rationals [Q]; [dividedBy] rounds to [DECIMAL_PLACES = 20] with
      [ROUND_HALF_UP], the library defaults.
    - [toNumber()] of such a rational is a JS [number]: the nearest IEEE
      binary64 double, ties to even, or an infinity ([toNumber]). Transaction
      timestamps and block numbers stay integers [Z]: [toNumber()] returns
      them unchanged up to 2^53, far above unix seconds and block heights.
    - A thrown [Error] is the [Err] branch of [result]. *)

From Stdlib Require Import QArith Qabs Sorting.Sorted Sorting.Permutation Ascii String.
From stdpp Require Import base gmap strings list.

Open Scope Z_scope.

(** ** Strings *)

Definition lower_ascii (c : ascii) : ascii :=
  let n := Ascii.nat_of_ascii c in
  if (65 <=? n)%nat && (n <=? 90)%nat then Ascii.ascii_of_nat (n + 32) else c.

(** [String.prototype.toLowerCase] on ASCII strings. *)
Fixpoint toLowerCase (s : string) : string :=
  match s with
  | EmptyString => EmptyString
  | String c s' => String (lower_ascii c) (toLowerCase s')
  end.

(** [new BigNumber(s)] for a decimal integer string [s]. *)
Fixpoint bigNumber_aux (s : string) (acc : Z) : Z :=
  match s with
  | EmptyString => acc
  | String c s' => bigNumber_aux s' (acc * 10 + (Z.of_nat (Ascii.nat_of_ascii c) - 48))
  end.

Definition bigNumber (s : string) : Z := bigNumber_aux s 0.

(** ** BigNumber arithmetic *)

(** [x.dividedBy(y)] with [DECIMAL_PLACES = 20], [ROUND_HALF_UP]: the exact
    quotient rounded to 20 decimals, ties away from zero. *)
Definition bn_dividedBy (x y : Q) : Q :=
  let q := (x / y)%Q in
  let n := Qnum q in
  let d := Zpos (Qden q) in
  Qmake (Z.sgn n * ((2 * Z.abs n * 10 ^ 20 + d) / (2 * d))) (Z.to_pos (10 ^ 20)).

(** [const WEI_PER_GOLD = Math.pow(10, 18)] (exactly representable). *)
Definition WEI_PER_GOLD : Q := inject_Z (10 ^ 18).

(** [new BigNumber(s).dividedBy(WEI_PER_GOLD)] *)
Definition weiToGold (s : string) : Q := bn_dividedBy (inject_Z (bigNumber s)) WEI_PER_GOLD.

(** [new BigNumber(s).multipliedBy(k).dividedBy(WEI_PER_GOLD)] *)
Definition signedWeiToGold (s : string) (k : Z) : Q :=
  bn_dividedBy (inject_Z (bigNumber s) * inject_Z k)%Q WEI_PER_GOLD.

(** ** JS numbers *)

(** A JS [number] produced by [toNumber()]: a finite double, given by its
    rational value, or [Infinity] / [-Infinity]. *)
Inductive number :=
  | Finite (q : Q)
  | Infinity (negative : bool).

(** [a / d] compared with [2 ^ j] as the quotient [fst / snd] of two
    integers. *)
Definition scale2 (a d j : Z) : Z * Z :=
  if 0 <=? j then (a, d * 2 ^ j) else (a * 2 ^ (- j), d).

(** [n / d] rounded to an integer, ties to even ([d > 0]). *)
Definition roundHalfEven (n d : Z) : Z :=
  let q := n / d in
  match Z.compare (2 * (n mod d)) d with
  | Lt => q
  | Gt => q + 1
  | Eq => if Z.even q then q else q + 1
  end.

(** The [E] with [2 ^ E <= a / d < 2 ^ (E + 1)], for [a, d > 0]. *)
Definition binaryExponent (a d : Z) : Z :=
  let k := Z.log2 a - Z.log2 d in
  let '(n, m) := scale2 a d k in
  if n <? m then k - 1 else k.

(** [BigNumber.prototype.toNumber]: the binary64 double nearest to [x]
    (53-bit significand, exponents down to the subnormal [2 ^ -1074]), ties to
    even, and an infinity from [2 ^ 1024] on. *)
Definition toNumber (x : Q) : number :=
  let a := Z.abs (Qnum x) in
  let d := Zpos (Qden x) in
  if a =? 0 then Finite 0 else
  let e := Z.max (binaryExponent a d - 52) (-1074) in
  let '(n, m) := scale2 a d e in
  let mant := roundHalfEven n m in
  if (0 <=? e) && (2 ^ 1024 <=? mant * 2 ^ e) then Infinity (Qnum x <? 0)
  else
    let v := if 0 <=? e then inject_Z (mant * 2 ^ e)
             else Qmake mant (Z.to_pos (2 ^ (- e))) in
    Finite (Qred (if Qnum x <? 0 then - v else v)).

(** ** Data model *)

(** [BlockscoutTransaction], the fields the classifier reads. *)
Record BlockscoutTransaction := {
  value : string;
  tokenSymbol : string;
  to : string;
  timeStamp : string;
  input : string;
  hash : string;
  gasUsed : string;
  gasPrice : string;
  from : string;
  contractAddress : string;
  blockNumber : string
}.

(** The instance fields of [BlockscoutAPI]; [None] is [undefined]. *)
Record BlockscoutAPI := {
  tokenAddressMapping : option (gmap string string);
  attestationsAddress : option string;
  escrowAddress : option string;
  goldTokenAddress : option string;
  stableTokenAddress : option string
}.

(** The resolution returned by [getContractAddresses()] (in utils). *)
Record ContractAddresses := {
  ca_tokenAddressMapping : gmap string string;
  ca_attestationsAddress : string;
  ca_escrowAddress : string;
  ca_goldTokenAddress : string;
  ca_stableTokenAddress : string
}.

(** Outbound requests issued by the registry. *)
Inductive OutboundCall := GetContractAddresses.

Inductive EventTypes :=
  | EXCHANGE | RECEIVED | SENT | FAUCET | VERIFICATION_FEE
  | VERIFICATION_REWARD | ESCROW_SENT | ESCROW_RECEIVED.

Inductive Error :=
  | NoTokenCorresponding (lowerCaseTokenAddress : string)
  | CannotFindTokenAddressMapping
  | CannotFindAttestationAddress
  | CannotFindEscrowAddress
  | NoValidEventType
  | TypeErrorUndefined.

Inductive result (A : Type) := Ok (a : A) | Err (e : Error).
Arguments Ok {A} a.
Arguments Err {A} e.

(** [result] as a monad: [x ← m; k] propagates a thrown error. *)
#[global] Instance result_ret : MRet result := fun A a => Ok a.
#[global] Instance result_bind : MBind result :=
  fun A B f m => match m with Ok a => f a | Err e => Err e end.

(** JS truthiness of an optional string field. *)
Definition truthy (o : option string) : bool :=
  match o with Some s => negb (String.eqb s "") | None => false end.

(** ** Address registry *)

(** [ensureTokenAddresses]: the new instance fields and the outbound
    requests issued; [addresses] is what [getContractAddresses()] resolves
    to when it is called. *)
Definition ensureTokenAddresses (addresses : ContractAddresses) (this : BlockscoutAPI)
    : BlockscoutAPI * list OutboundCall :=
  if bool_decide (is_Some (tokenAddressMapping this)) && truthy (attestationsAddress this)
     && truthy (escrowAddress this) && truthy (goldTokenAddress this)
     && truthy (stableTokenAddress this)
  then (this, [])
  else ({| attestationsAddress := Some (ca_attestationsAddress addresses);
           tokenAddressMapping := Some (ca_tokenAddressMapping addresses);
           escrowAddress := Some (ca_escrowAddress addresses);
           goldTokenAddress := Some (ca_goldTokenAddress addresses);
           stableTokenAddress := Some (ca_stableTokenAddress addresses) |},
        [GetContractAddresses]).

Definition getTokenAtAddress (this : BlockscoutAPI) (tokenAddress : string) : result string :=
  match tokenAddressMapping this with
  | Some m =>
      let lowerCaseTokenAddress := toLowerCase tokenAddress in
      match m !! lowerCaseTokenAddress with
      | Some sym => Ok sym
      | None => Err (NoTokenCorresponding lowerCaseTokenAddress)
      end
  | None => Err CannotFindTokenAddressMapping
  end.

Definition getAttestationAddress (this : BlockscoutAPI) : result string :=
  match attestationsAddress this with
  | Some a => if truthy (Some a) then Ok a else Err CannotFindAttestationAddress
  | None => Err CannotFindAttestationAddress
  end.

Definition getEscrowAddress (this : BlockscoutAPI) : result string :=
  match escrowAddress this with
  | Some a => if truthy (Some a) then Ok a else Err CannotFindEscrowAddress
  | None => Err CannotFindEscrowAddress
  end.

(** ** Events *)

(** [EventInterface] of the general feed, and [TransferEvent] of the rewards
    feed. Amounts are the JS numbers of [toNumber()]; timestamps and blocks
    are integers. *)
Record ExchangeEvent := {
  ex_type : EventTypes;
  ex_timestamp : Z;
  ex_block : Z;
  ex_inSymbol : string;
  ex_inValue : number;
  ex_outSymbol : string;
  ex_outValue : number;
  ex_hash : string
}.

Record TransferEvent := {
  tr_type : EventTypes;
  tr_timestamp : Z;
  tr_block : Z;
  tr_value : number;
  tr_address : string;
  tr_comment : string;
  tr_symbol : string;
  tr_hash : string
}.

Inductive EventInterface :=
  | EvExchange (e : ExchangeEvent)
  | EvTransfer (e : TransferEvent).

Definition ev_timestamp (e : EventInterface) : Z :=
  match e with EvExchange x => ex_timestamp x | EvTransfer x => tr_timestamp x end.

Definition ev_block (e : EventInterface) : Z :=
  match e with EvExchange x => ex_block x | EvTransfer x => tr_block x end.

(** The event shapes of [getTokenTransactions]: amounts are
    [BigNumber.toString()] of the value kept here, [block] is the raw
    [blockNumber] string. *)
Record Amount := {
  am_value : Q;
  currencyCode : string;
  am_timestamp : Z
}.

Record TokenExchangeEvent := {
  te_type : EventTypes;
  te_timestamp : Z;
  te_block : string;
  te_amount : Amount;
  te_makerAmount : Amount;
  te_takerAmount : Amount;
  te_hash : string
}.

Record TokenTransferEvent := {
  tt_type : EventTypes;
  tt_timestamp : Z;
  tt_block : string;
  tt_amount : Amount;
  tt_address : string;
  tt_comment : string;
  tt_hash : string
}.

Inductive TokenEvent :=
  | TokExchange (e : TokenExchangeEvent)
  | TokTransfer (e : TokenTransferEvent).

Definition tok_timestamp (e : TokenEvent) : Z :=
  match e with TokExchange x => te_timestamp x | TokTransfer x => tt_timestamp x end.

Definition tok_block (e : TokenEvent) : string :=
  match e with TokExchange x => te_block x | TokTransfer x => tt_block x end.

Definition tok_amount (e : TokenEvent) : Amount :=
  match e with TokExchange x => te_amount x | TokTransfer x => tt_amount x end.

(** ** Array helpers *)

(** [Map<string, BlockscoutTransaction[]>] keyed by hash, in insertion
    order: [get(tx.hash) || []], [push(tx)], [set(tx.hash, ...)]. *)
Fixpoint pushTx (m : list (string * list BlockscoutTransaction)) (tx : BlockscoutTransaction)
    : list (string * list BlockscoutTransaction) :=
  match m with
  | [] => [(hash tx, [tx])]
  | (h, txs) :: m' =>
      if String.eqb h (hash tx) then (h, txs ++ [tx]) :: m' else (h, txs) :: pushTx m' tx
  end.

Definition groupByHash (rawTransactions : list BlockscoutTransaction)
    : list (string * list BlockscoutTransaction) :=
  fold_left pushTx rawTransactions [].

(** [Array.prototype.sort] with comparator [compareFn] (stable, ES2019):
    [compareFn a b > 0] places [b] before [a]. *)
Fixpoint sortInsert {A} (compareFn : A -> A -> Z) (x : A) (l : list A) : list A :=
  match l with
  | [] => [x]
  | y :: l' => if compareFn x y >? 0 then y :: sortInsert compareFn x l' else x :: y :: l'
  end.

Fixpoint jsSort {A} (compareFn : A -> A -> Z) (l : list A) : list A :=
  match l with
  | [] => []
  | x :: l' => sortInsert compareFn x (jsSort compareFn l')
  end.

(** [Map.prototype.forEach] with a callback that may push one event, return
    early, or throw (which aborts the iteration). *)
Fixpoint forEachPush {K V A} (f : K * V -> result (option A)) (m : list (K * V))
    : result (list A) :=
  match m with
  | [] => Ok []
  | kv :: m' =>
      o ← f kv;
      rest ← forEachPush f m';
      Ok (match o with Some e => e :: rest | None => rest end)
  end.

(** JS truthiness of a string. *)
Definition strTruthy (s : string) : bool := negb (String.eqb s "").

(** The in/out leg choice of an exchange (lines 161-168 and 266-273). *)
Definition exchangeLegs (userAddress : string) (t0 t1 : BlockscoutTransaction)
    : BlockscoutTransaction * BlockscoutTransaction :=
  if String.eqb (toLowerCase (from t0)) userAddress then (t0, t1) else (t1, t0).

(** ** Classifier and feeds *)

Section Blockscout.

(** [FAUCET_ADDRESS] and [VERIFICATION_REWARDS_ADDRESS] of [./config], and
    [formatCommentString] of [./utils]: any configuration. *)
Variable FAUCET_ADDRESS : string.
Variable VERIFICATION_REWARDS_ADDRESS : string.
Variable formatCommentString : string -> string.

Definition resolveTransferEventType (userAddress eventToAddress eventFromAddress
    attestationsAddress escrowAddress : string) : result (EventTypes * string) :=
  if String.eqb eventToAddress userAddress && String.eqb eventFromAddress FAUCET_ADDRESS then
    Ok (FAUCET, FAUCET_ADDRESS)
  else if String.eqb eventToAddress attestationsAddress && String.eqb eventFromAddress userAddress then
    Ok (VERIFICATION_FEE, attestationsAddress)
  else if String.eqb eventToAddress userAddress
          && String.eqb eventFromAddress VERIFICATION_REWARDS_ADDRESS then
    Ok (VERIFICATION_REWARD, VERIFICATION_REWARDS_ADDRESS)
  else if String.eqb eventToAddress userAddress && String.eqb eventFromAddress escrowAddress then
    Ok (ESCROW_RECEIVED, eventFromAddress)
  else if String.eqb eventToAddress userAddress then
    Ok (RECEIVED, eventFromAddress)
  else if String.eqb eventFromAddress userAddress && String.eqb eventToAddress escrowAddress then
    Ok (ESCROW_SENT, eventToAddress)
  else if String.eqb eventFromAddress userAddress then
    Ok (SENT, eventToAddress)
  else Err NoValidEventType.

(** The [forEach] callback of [getFeedEvents] (lines 158-205). *)
Definition feedEventOf (this : BlockscoutAPI) (userAddress : string)
    (entry : string * list BlockscoutTransaction) : result (option EventInterface) :=
  let (txhash, transactions) := entry in
  match transactions with
  | [t0; t1] =>
      let (inEvent, outEvent) := exchangeLegs userAddress t0 t1 in
      inSymbol ← getTokenAtAddress this (contractAddress inEvent);
      outSymbol ← getTokenAtAddress this (contractAddress outEvent);
      Ok (Some (EvExchange {|
        ex_type := EXCHANGE;
        ex_timestamp := bigNumber (timeStamp inEvent);
        ex_block := bigNumber (blockNumber inEvent);
        ex_inSymbol := inSymbol;
        ex_inValue := toNumber (weiToGold (value inEvent));
        ex_outSymbol := outSymbol;
        ex_outValue := toNumber (weiToGold (value outEvent));
        ex_hash := txhash |}))
  | [] => Err TypeErrorUndefined
  | event :: _ =>
      let comment := if strTruthy (input event) then formatCommentString (input event) else "" in
      let eventToAddress := toLowerCase (to event) in
      let eventFromAddress := toLowerCase (from event) in
      attestations ← getAttestationAddress this;
      escrow ← getEscrowAddress this;
      '(type, address) ← resolveTransferEventType userAddress eventToAddress eventFromAddress
                            attestations escrow;
      symbol ← getTokenAtAddress this (contractAddress event);
      Ok (Some (EvTransfer {|
        tr_type := type;
        tr_timestamp := bigNumber (timeStamp event);
        tr_block := bigNumber (blockNumber event);
        tr_value := toNumber (weiToGold (value event));
        tr_address := address;
        tr_comment := comment;
        tr_symbol := if strTruthy symbol then symbol else "unknown";
        tr_hash := txhash |}))
  end.

(** The events of [getFeedEvents] in processing order, before the sort. *)
Definition getFeedEventsUnsorted (addresses : ContractAddresses) (this : BlockscoutAPI)
    (argsAddress : string) (rawTransactions : list BlockscoutTransaction)
    : BlockscoutAPI * list OutboundCall * result (list EventInterface) :=
  let userAddress := toLowerCase argsAddress in
  let txHashToEventTransactions := groupByHash rawTransactions in
  let (this', calls) := ensureTokenAddresses addresses this in
  (this', calls, forEachPush (feedEventOf this' userAddress) txHashToEventTransactions).

Definition byTimestampDesc (a b : EventInterface) : Z := ev_timestamp b - ev_timestamp a.

Definition getFeedEvents (addresses : ContractAddresses) (this : BlockscoutAPI)
    (argsAddress : string) (rawTransactions : list BlockscoutTransaction)
    : BlockscoutAPI * list OutboundCall * result (list EventInterface) :=
  let '(this', calls, events) :=
    getFeedEventsUnsorted addresses this argsAddress rawTransactions in
  (this', calls, events ← events; Ok (jsSort byTimestampDesc events)).

(** The rewards of [getFeedRewards] (lines 217-232), before the sort. *)
Fixpoint feedRewardsLoop (this : BlockscoutAPI) (rawTransactions : list BlockscoutTransaction)
    : result (list TransferEvent) :=
  match rawTransactions with
  | [] => Ok []
  | t :: rest =>
      if negb (String.eqb (toLowerCase (from t)) VERIFICATION_REWARDS_ADDRESS)
      then feedRewardsLoop this rest
      else
        symbol ← getTokenAtAddress this (contractAddress t);
        let reward := {|
          tr_type := VERIFICATION_REWARD;
          tr_timestamp := bigNumber (timeStamp t);
          tr_block := bigNumber (blockNumber t);
          tr_value := toNumber (weiToGold (value t));
          tr_address := VERIFICATION_REWARDS_ADDRESS;
          tr_comment := if strTruthy (input t) then formatCommentString (input t) else "";
          tr_symbol := symbol;
          tr_hash := hash t |} in
        rewards ← feedRewardsLoop this rest;
        Ok (reward :: rewards)
  end.

Definition rewardByTimestampDesc (a b : TransferEvent) : Z := tr_timestamp b - tr_timestamp a.

Definition getFeedRewards (addresses : ContractAddresses) (this : BlockscoutAPI)
    (rawTransactions : list BlockscoutTransaction)
    : BlockscoutAPI * list OutboundCall * result (list TransferEvent) :=
  let (this', calls) := ensureTokenAddresses addresses this in
  (this', calls, rewards ← feedRewardsLoop this' rawTransactions;
                 Ok (jsSort rewardByTimestampDesc rewards)).

(** Lines 308-349 of [getTokenTransactions]: the row of a non-exchange
    group that is classified, if any. *)
Definition stableTokenFilter (this : BlockscoutAPI) (transactions : list BlockscoutTransaction)
    : list BlockscoutTransaction :=
  List.filter (fun tx => bool_decide (Some (toLowerCase (contractAddress tx)) = stableTokenAddress this)
                    && negb (String.eqb (value tx) "0")) transactions.

Definition byValueDesc (a b : BlockscoutTransaction) : Z := bigNumber (value b) - bigNumber (value a).

Definition selectTokenTx (this : BlockscoutAPI) (transactions : list BlockscoutTransaction)
    : option BlockscoutTransaction :=
  let stableTokenTxs := jsSort byValueDesc (stableTokenFilter this transactions) in
  match stableTokenTxs with
  | [] => None
  | s0 :: _ =>
      let gasValue := bigNumber (gasUsed s0) * bigNumber (gasPrice s0) in
      match stableTokenTxs with
      | [e] => Some e
      | [s0; s1; s2] =>
          let tx0Value := bigNumber (value s0) in
          let tx1Value := bigNumber (value s1) in
          let tx2Value := bigNumber (value s2) in
          if tx0Value + tx1Value =? gasValue then Some s2
          else if tx0Value + tx2Value =? gasValue then Some s1
          else Some s0
      | _ => None
      end
  end.

(** The [forEach] callback of [getTokenTransactions] (lines 263-380). *)
Definition tokenEventOf (this : BlockscoutAPI) (userAddress token : string)
    (entry : string * list BlockscoutTransaction) : result (option TokenEvent) :=
  let (txhash, transactions) := entry in
  match transactions with
  | [t0; t1] =>
      let (inEvent, outEvent) := exchangeLegs userAddress t0 t1 in
      let timestamp := bigNumber (timeStamp inEvent) * 1000 in
      let tokenEvent :=
        if String.eqb (tokenSymbol inEvent) token then Some (inEvent, -1)
        else if String.eqb (tokenSymbol outEvent) token then Some (outEvent, 1)
        else None in
      match tokenEvent with
      | None => Ok None
      | Some (tokenEvent, sign) =>
          Ok (Some (TokExchange {|
            te_type := EXCHANGE;
            te_timestamp := timestamp;
            te_block := blockNumber inEvent;
            te_amount := {| am_value := signedWeiToGold (value tokenEvent) sign;
                            currencyCode := tokenSymbol tokenEvent;
                            am_timestamp := timestamp |};
            te_makerAmount := {| am_value := weiToGold (value inEvent);
                                 currencyCode := tokenSymbol inEvent;
                                 am_timestamp := timestamp |};
            te_takerAmount := {| am_value := weiToGold (value outEvent);
                                 currencyCode := tokenSymbol outEvent;
                                 am_timestamp := timestamp |};
            te_hash := txhash |}))
      end
  | _ =>
      match selectTokenTx this transactions with
      | None => Ok None
      | Some event =>
          let comment := if strTruthy (input event) then formatCommentString (input event) else "" in
          let eventToAddress := toLowerCase (to event) in
          let eventFromAddress := toLowerCase (from event) in
          attestations ← getAttestationAddress this;
          escrow ← getEscrowAddress this;
          '(type, address) ← resolveTransferEventType userAddress eventToAddress eventFromAddress
                                attestations escrow;
          let timestamp := bigNumber (timeStamp event) * 1000 in
          Ok (Some (TokTransfer {|
            tt_type := type;
            tt_timestamp := timestamp;
            tt_block := blockNumber event;
            tt_amount := {| am_value := signedWeiToGold (value event)
                                          (if String.eqb eventFromAddress userAddress then -1 else 1);
                            currencyCode := tokenSymbol event;
                            am_timestamp := timestamp |};
            tt_address := address;
            tt_comment := comment;
            tt_hash := txhash |}))
      end
  end.

(** The events of [getTokenTransactions] in processing order, filtered to
    the requested token, before the sort. *)
Definition getTokenTransactionsUnsorted (addresses : ContractAddresses) (this : BlockscoutAPI)
    (argsAddress token : string) (rawTransactions : list BlockscoutTransaction)
    : BlockscoutAPI * list OutboundCall * result (list TokenEvent) :=
  let userAddress := toLowerCase argsAddress in
  let txHashToEventTransactions := groupByHash rawTransactions in
  let (this', calls) := ensureTokenAddresses addresses this in
  (this', calls,
   events ← forEachPush (tokenEventOf this' userAddress token) txHashToEventTransactions;
   Ok (List.filter (fun e => String.eqb (currencyCode (tok_amount e)) token) events)).

Definition tokenByTimestampDesc (a b : TokenEvent) : Z := tok_timestamp b - tok_timestamp a.

Definition getTokenTransactions (addresses : ContractAddresses) (this : BlockscoutAPI)
    (argsAddress token : string) (rawTransactions : list BlockscoutTransaction)
    : BlockscoutAPI * list OutboundCall * result (list TokenEvent) :=
  let '(this', calls, events) :=
    getTokenTransactionsUnsorted addresses this argsAddress token rawTransactions in
  (this', calls, events ← events; Ok (jsSort tokenByTimestampDesc events)).

(** The rule table of spec section 4.4, written from the spec's words as the
    other side of the refinement for [resolveTransferEventType]: ordered
    (guard, result) rules, the first rule whose guard holds wins. *)
Definition specRuleTable (viewer to from attestationAddr escrowAddr : string)
    : list (bool * (EventTypes * string)) :=
  [ (String.eqb to viewer && String.eqb from FAUCET_ADDRESS, (FAUCET, FAUCET_ADDRESS));
    (String.eqb to attestationAddr && String.eqb from viewer, (VERIFICATION_FEE, attestationAddr));
    (String.eqb to viewer && String.eqb from VERIFICATION_REWARDS_ADDRESS,
       (VERIFICATION_REWARD, VERIFICATION_REWARDS_ADDRESS));
    (String.eqb to viewer && String.eqb from escrowAddr, (ESCROW_RECEIVED, from));
    (String.eqb to viewer, (RECEIVED, from));
    (String.eqb from viewer && String.eqb to escrowAddr, (ESCROW_SENT, escrowAddr));
    (String.eqb from viewer, (SENT, to)) ].

Fixpoint firstMatchingRule {A} (rules : list (bool * A)) : option A :=
  match rules with
  | [] => None
  | (guard, r) :: rules' => if guard then Some r else firstMatchingRule rules'
  end.

End Blockscout.

(** ** Sample inputs *)

(** A populated registry: cUSD at [0xcusd] (the stable token), cGLD at
    [0xgold]. *)
Definition sampleAPI : BlockscoutAPI := {|
  tokenAddressMapping := Some (<["0xcusd" := "cUSD"]> (<["0xgold" := "cGLD"]> ∅));
  attestationsAddress := Some "0xatt";
  escrowAddress := Some "0xesc";
  goldTokenAddress := Some "0xgold";
  stableTokenAddress := Some "0xcusd" |}.

Definition sampleAddresses : ContractAddresses := {|
  ca_tokenAddressMapping := <["0xcusd" := "cUSD"]> (<["0xgold" := "cGLD"]> ∅);
  ca_attestationsAddress := "0xatt";
  ca_escrowAddress := "0xesc";
  ca_goldTokenAddress := "0xgold";
  ca_stableTokenAddress := "0xcusd" |}.

(** A row at block 42, time 1600, with gas cost 10 x 1. *)
Definition sampleRow (txhash from' to' contractAddress' value' tokenSymbol' : string)
    : BlockscoutTransaction := {|
  value := value'; tokenSymbol := tokenSymbol'; to := to'; timeStamp := "1600";
  input := ""; hash := txhash; gasUsed := "10"; gasPrice := "1"; from := from';
  contractAddress := contractAddress'; blockNumber := "42" |}.

(** The scenario of spec section 8: viewer [0xaaa] gives cUSD to [0xccc]
    and receives cGLD back in one transaction. *)
Definition exchangeOut : BlockscoutTransaction :=
  sampleRow "0xh" "0xAAA" "0xccc" "0xcusd" "5000000000000000000" "cUSD".
Definition exchangeBack : BlockscoutTransaction :=
  sampleRow "0xh" "0xccc" "0xaaa" "0xgold" "2000000000000000000" "cGLD".

(** A cUSD transfer of 3 paid with fee currency: two fee legs of 8 and 2
    make up the gas cost 10 x 1. *)
Definition feeTransfer : BlockscoutTransaction :=
  sampleRow "0xf" "0xaaa" "0xbbb" "0xcusd" "3" "cUSD".
Definition feeLegValidator : BlockscoutTransaction :=
  sampleRow "0xf" "0xaaa" "0xvalidator" "0xcusd" "8" "cUSD".
Definition feeLegCommunity : BlockscoutTransaction :=
  sampleRow "0xf" "0xaaa" "0xcommunity" "0xcusd" "2" "cUSD".

(** A lone cGLD transfer to the viewer. *)
Definition goldRow : BlockscoutTransaction :=
  sampleRow "0xg" "0xbbb" "0xaaa" "0xgold" "1000000000000000000" "cGLD".

(** A verification reward of 1 paid in cUSD to the viewer by [0xREWARDS]. *)
Definition rewardRow : BlockscoutTransaction :=
  sampleRow "0xr" "0xREWARDS" "0xaaa" "0xcusd" "1000000000000000000" "cUSD".

(** A transfer to the viewer of a token missing from the registry. *)
Definition unknownTokenRow : BlockscoutTransaction :=
  sampleRow "0xu" "0xbbb" "0xaaa" "0xunknown" "1" "XYZ".

(** A cUSD transfer of 7 from the viewer to the viewer. *)
Definition selfRow : BlockscoutTransaction :=
  sampleRow "0xs" "0xAAA" "0xaaa" "0xcusd" "7" "cUSD".

(** A row with its address fields ([from], [to], [contractAddress])
    lower-cased: two rows differ only in the letter case of their addresses
    when they have the same [lowerRow]. *)
Definition lowerRow (r : BlockscoutTransaction) : BlockscoutTransaction := {|
  value := value r; tokenSymbol := tokenSymbol r; to := toLowerCase (to r);
  timeStamp := timeStamp r; input := input r; hash := hash r; gasUsed := gasUsed r;
  gasPrice := gasPrice r; from := toLowerCase (from r);
  contractAddress := toLowerCase (contractAddress r); blockNumber := blockNumber r |}.

(** [out] lists the elements of [pre] by descending [ts], and elements with
    equal [ts] keep their relative order in [pre]. *)
Definition stableDescendingBy {A} (ts : A -> Z) (pre out : list A) : Prop :=
  Sorted (fun a b => ts b <= ts a) out /\ Permutation pre out /\
  forall t, List.filter (fun e => ts e =? t) out = List.filter (fun e => ts e =? t) pre.

(** A sorting step returns the stable descending sort of what the code
    collected, or the same error. *)
Definition sortsCollected {A} (ts : A -> Z) (pre out : result (list A)) : Prop :=
  match pre, out with
  | Ok p, Ok o => stableDescendingBy ts p o
  | Err e, Err e' => e = e'
  | _, _ => False
  end.

(** The distinct strings of [hs] in order of first occurrence. *)
Definition firstSeenStep (acc : list string) (h : string) : list string :=
  if existsb (String.eqb h) acc then acc else acc ++ [h].

Definition firstSeen (hs : list string) : list string := fold_left firstSeenStep hs [].

(** One group per distinct hash, in order of first occurrence, holding the
    rows of that hash in input order. *)
Definition groupsOf (rows : list BlockscoutTransaction)
    : list (string * list BlockscoutTransaction) :=
  map (fun h => (h, List.filter (fun r => String.eqb (hash r) h) rows)) (firstSeen (map hash rows)).

Definition ev_hash (e : EventInterface) : string :=
  match e with EvExchange x => ex_hash x | EvTransfer x => tr_hash x end.

Definition tok_hash (e : TokenEvent) : string :=
  match e with TokExchange x => te_hash x | TokTransfer x => tt_hash x end.

(** The rows [getFeedRewards] turns into rewards. *)
Definition isRewardRow (VERIFICATION_REWARDS_ADDRESS : string) (t : BlockscoutTransaction) : bool :=
  String.eqb (toLowerCase (from t)) VERIFICATION_REWARDS_ADDRESS.

(** The direction of a transfer type relative to the viewer: incoming types
    name the sender as counterparty, outgoing ones the receiver. *)
Definition directionOk (userAddress eventToAddress eventFromAddress : string)
    (type : EventTypes) (address : string) : Prop :=
  match type with
  | RECEIVED | ESCROW_RECEIVED | FAUCET | VERIFICATION_REWARD =>
      eventToAddress = userAddress /\ address = eventFromAddress
  | SENT | ESCROW_SENT | VERIFICATION_FEE =>
      eventFromAddress = userAddress /\ address = eventToAddress
  | EXCHANGE => False
  end.

(** The registry with its token address mapping replaced. *)
Definition withMapping (this : BlockscoutAPI) (m : option (gmap string string)) : BlockscoutAPI := {|
  tokenAddressMapping := m; attestationsAddress := attestationsAddress this;
  escrowAddress := escrowAddress this; goldTokenAddress := goldTokenAddress this;
  stableTokenAddress := stableTokenAddress this |}.

(** The registry state in which only the token address mapping's content
    can make a lookup fail. *)
Definition registryReady (this : BlockscoutAPI) : Prop :=
  (exists m, tokenAddressMapping this = Some m) /\
  (exists a, getAttestationAddress this = Ok a) /\ (exists b, getEscrowAddress this = Ok b).

(** * Properties *)

Section Proofs.

Variable FAUCET_ADDRESS : string.
Variable VERIFICATION_REWARDS_ADDRESS : string.
Variable formatCommentString : string -> string.

Local Abbreviation resolve := (resolveTransferEventType FAUCET_ADDRESS VERIFICATION_REWARDS_ADDRESS).
Local Abbreviation table := (specRuleTable FAUCET_ADDRESS VERIFICATION_REWARDS_ADDRESS).

(** ** C1 *)

(** Claim C1: [resolveTransferEventType] returns the result of the first
    matching rule of the ordered seven-rule table of the spec (FAUCET,
    VERIFICATION_FEE, VERIFICATION_REWARD, ESCROW_RECEIVED, RECEIVED,
    ESCROW_SENT, SENT) and throws exactly when no rule matches, which is
    exactly when the viewing address is neither the receiver nor the
    sender. *)
Theorem resolveTransferEventType_first_rule (user to from att esc : string) :
  resolve user to from att esc =
    match firstMatchingRule (table user to from att esc) with
    | Some r => Ok r
    | None => Err NoValidEventType
    end /\
  (firstMatchingRule (table user to from att esc) = None <-> to <> user /\ from <> user).
Proof.
  unfold resolveTransferEventType, specRuleTable; simpl.
  destruct (String.eqb_spec to user) as [->|Hto];
  destruct (String.eqb_spec from user) as [->|Hfrom]; simpl;
  repeat match goal with
         | |- context [String.eqb ?a ?b] =>
             destruct (String.eqb_spec a b) as [?|?]; subst; simpl
         end;
  split; try reflexivity; split; intros; try discriminate; intuition congruence.
Qed.

Local Abbreviation feedEvent := (feedEventOf FAUCET_ADDRESS VERIFICATION_REWARDS_ADDRESS formatCommentString).
Local Abbreviation tokenEvent := (tokenEventOf FAUCET_ADDRESS VERIFICATION_REWARDS_ADDRESS formatCommentString).

(** ** Sorting *)

Section JsSort.

Context {A : Type} (ts : A -> Z).

Let cmp (a b : A) : Z := ts b - ts a.

Lemma sortInsert_perm (compareFn : A -> A -> Z) (x : A) (l : list A) :
  Permutation (x :: l) (sortInsert compareFn x l).
Proof.
  induction l as [|y l IH]; simpl; [reflexivity|].
  destruct (compareFn x y >? 0); [|reflexivity].
  rewrite perm_swap. constructor. exact IH.
Qed.

Lemma jsSort_perm (compareFn : A -> A -> Z) (l : list A) :
  Permutation l (jsSort compareFn l).
Proof.
  induction l as [|x l IH]; simpl; [reflexivity|].
  rewrite <- sortInsert_perm. constructor. exact IH.
Qed.

Lemma sortInsert_sorted (x : A) (l : list A) :
  Sorted (fun a b => ts b <= ts a) l -> Sorted (fun a b => ts b <= ts a) (sortInsert cmp x l).
Proof.
  induction l as [|y l IH]; intros Hs; simpl; [repeat constructor|].
  unfold cmp at 1. destruct (Z.gtb_spec (ts y - ts x) 0) as [Hgt|Hle].
  - apply Sorted_inv in Hs as [Hs Hhd]. constructor; [exact (IH Hs)|].
    destruct l as [|z l]; simpl.
    + constructor. lia.
    + apply HdRel_inv in Hhd. unfold cmp at 1.
      destruct (Z.gtb_spec (ts z - ts x) 0); constructor; lia.
  - constructor; [exact Hs|]. constructor. lia.
Qed.

Lemma jsSort_sorted (l : list A) : Sorted (fun a b => ts b <= ts a) (jsSort cmp l).
Proof.
  induction l as [|x l IH]; simpl; [constructor|]. apply sortInsert_sorted, IH.
Qed.

Lemma sortInsert_stable (t : Z) (x : A) (l : list A) :
  List.filter (fun e => ts e =? t) (sortInsert cmp x l) =
  List.filter (fun e => ts e =? t) (x :: l).
Proof.
  induction l as [|y l IH]; simpl; [reflexivity|].
  unfold cmp at 1. destruct (Z.gtb_spec (ts y - ts x) 0) as [Hgt|Hle]; [|reflexivity].
  simpl. rewrite IH. simpl.
  destruct (Z.eqb_spec (ts x) t); destruct (Z.eqb_spec (ts y) t); try lia; reflexivity.
Qed.

Lemma jsSort_stable (t : Z) (l : list A) :
  List.filter (fun e => ts e =? t) (jsSort cmp l) = List.filter (fun e => ts e =? t) l.
Proof.
  induction l as [|x l IH]; simpl; [reflexivity|].
  rewrite sortInsert_stable. simpl. rewrite IH. reflexivity.
Qed.

Lemma jsSort_stableDescending (l : list A) : stableDescendingBy ts l (jsSort cmp l).
Proof.
  split; [apply jsSort_sorted|]. split; [apply jsSort_perm|].
  intros t. apply jsSort_stable.
Qed.

End JsSort.

(** ** Non-exchange groups of the token feed *)

Lemma jsSort_length {A} (cmp : A -> A -> Z) (l : list A) : length (jsSort cmp l) = length l.
Proof.
  induction l as [|x l IH]; simpl; [reflexivity|].
  rewrite <- (Permutation_length (sortInsert_perm cmp x (jsSort cmp l))). simpl. lia.
Qed.

Lemma selectTokenTx_None (this : BlockscoutAPI) (transactions : list BlockscoutTransaction) :
  selectTokenTx this transactions = None <->
  length (stableTokenFilter this transactions) <> 1%nat /\
  length (stableTokenFilter this transactions) <> 3%nat.
Proof.
  unfold selectTokenTx. rewrite <- (jsSort_length byValueDesc).
  destruct (jsSort byValueDesc (stableTokenFilter this transactions))
    as [|s0 [|s1 [|s2 [|s3 l]]]]; simpl;
  repeat case_match; split; intros; try discriminate; try lia; try tauto.
Qed.

Lemma tokenEventOf_not_pair_eq (this : BlockscoutAPI) (user token h : string)
    (transactions : list BlockscoutTransaction) :
  length transactions <> 2%nat ->
  tokenEventOf FAUCET_ADDRESS VERIFICATION_REWARDS_ADDRESS formatCommentString
    this user token (h, transactions) =
  match selectTokenTx this transactions with
  | None => Ok None
  | Some event =>
      attestations ← getAttestationAddress this;
      escrow ← getEscrowAddress this;
      '(type, address) ←
        resolveTransferEventType FAUCET_ADDRESS VERIFICATION_REWARDS_ADDRESS user
          (toLowerCase (to event)) (toLowerCase (from event)) attestations escrow;
      Ok (Some (TokTransfer {|
        tt_type := type;
        tt_timestamp := bigNumber (timeStamp event) * 1000;
        tt_block := blockNumber event;
        tt_amount := {| am_value := signedWeiToGold (value event)
                          (if String.eqb (toLowerCase (from event)) user then -1 else 1);
                        currencyCode := tokenSymbol event;
                        am_timestamp := bigNumber (timeStamp event) * 1000 |};
        tt_address := address;
        tt_comment := if strTruthy (input event)
                      then formatCommentString (input event) else "";
        tt_hash := h |}))
  end.
Proof.
  intros Hlen. unfold tokenEventOf.
  destruct transactions as [|t0 [|t1 [|t2 l]]]; simpl in Hlen; try lia; reflexivity.
Qed.

Lemma tokenEventOf_not_pair (this : BlockscoutAPI) (user token h : string)
    (transactions : list BlockscoutTransaction) :
  length transactions <> 2%nat ->
  (tokenEventOf FAUCET_ADDRESS VERIFICATION_REWARDS_ADDRESS formatCommentString
     this user token (h, transactions) = Ok None <->
   selectTokenTx this transactions = None).
Proof.
  intros Hlen.
  pose proof (tokenEventOf_not_pair_eq this user token h transactions Hlen) as Hb.
  rewrite Hb. destruct (selectTokenTx this transactions); [|tauto].
  split; [|discriminate]. intros H.
  destruct (getAttestationAddress this); simpl in H; [|discriminate].
  destruct (getEscrowAddress this); simpl in H; [|discriminate].
  destruct (resolveTransferEventType _ _ _ _ _ _ _) as [[? ?]|]; simpl in H; discriminate.
Qed.

Lemma feedEventOf_not_pair (this : BlockscoutAPI) (user h : string)
    (transactions : list BlockscoutTransaction) (e : EventInterface) :
  length transactions <> 2%nat ->
  feedEventOf FAUCET_ADDRESS VERIFICATION_REWARDS_ADDRESS formatCommentString
    this user (h, transactions) = Ok (Some e) ->
  exists t rest x, transactions = t :: rest /\ e = EvTransfer x /\
    tr_timestamp x = bigNumber (timeStamp t) /\ tr_value x = toNumber (weiToGold (value t)) /\
    tr_block x = bigNumber (blockNumber t) /\ tr_hash x = h.
Proof.
  intros Hlen. unfold feedEventOf.
  destruct transactions as [|t0 [|t1 [|t2 l]]]; simpl in Hlen; try lia;
  [discriminate| | ];
  intros H;
  destruct (getAttestationAddress this); simpl in H; try discriminate;
  destruct (getEscrowAddress this); simpl in H; try discriminate;
  destruct (resolveTransferEventType _ _ _ _ _ _ _) as [[? ?]|]; simpl in H; try discriminate;
  destruct (getTokenAtAddress this (contractAddress t0)); simpl in H; try discriminate;
  injection H as <-; do 3 eexists; repeat split.
Qed.

Lemma selectTokenTx_In (this : BlockscoutAPI) (transactions : list BlockscoutTransaction)
    (event : BlockscoutTransaction) :
  selectTokenTx this transactions = Some event -> In event transactions.
Proof.
  intros H.
  assert (Hin : In event (jsSort byValueDesc (stableTokenFilter this transactions))).
  { unfold selectTokenTx in H.
    destruct (jsSort byValueDesc (stableTokenFilter this transactions))
      as [|s0 [|s1 [|s2 [|s3 l]]]]; try discriminate;
    repeat case_match; simplify_eq; simpl; tauto. }
  apply (Permutation_in event (Permutation_sym (jsSort_perm byValueDesc _))) in Hin.
  unfold stableTokenFilter in Hin. apply filter_In in Hin. tauto.
Qed.

Lemma tokenEventOf_not_pair_Some (this : BlockscoutAPI) (user token h : string)
    (transactions : list BlockscoutTransaction) (e : TokenEvent) :
  length transactions <> 2%nat ->
  tokenEventOf FAUCET_ADDRESS VERIFICATION_REWARDS_ADDRESS formatCommentString
    this user token (h, transactions) = Ok (Some e) ->
  exists event x, selectTokenTx this transactions = Some event /\ e = TokTransfer x /\
    tt_timestamp x = bigNumber (timeStamp event) * 1000 /\
    am_timestamp (tt_amount x) = bigNumber (timeStamp event) * 1000 /\
    tt_block x = blockNumber event.
Proof.
  intros Hlen. unfold tokenEventOf.
  destruct transactions as [|t0 [|t1 [|t2 l]]]; simpl in Hlen; try lia;
  destruct (selectTokenTx this _) as [event|] eqn:Hsel; try discriminate; intros H;
  destruct (getAttestationAddress this); simpl in H; try discriminate;
  destruct (getEscrowAddress this); simpl in H; try discriminate;
  destruct (resolveTransferEventType _ _ _ _ _ _ _) as [[? ?]|]; simpl in H; try discriminate;
  injection H as <-; do 2 eexists; repeat split.
Qed.

Lemma feedEventOf_never_drops (this : BlockscoutAPI) (user h : string)
    (transactions : list BlockscoutTransaction) :
  length transactions <> 2%nat ->
  feedEventOf FAUCET_ADDRESS VERIFICATION_REWARDS_ADDRESS formatCommentString
    this user (h, transactions) <> Ok None.
Proof.
  intros Hlen. unfold feedEventOf.
  destruct transactions as [|t0 [|t1 [|t2 l]]]; simpl in Hlen; try lia;
  [discriminate| | ];
  destruct (getAttestationAddress this); simpl; try discriminate;
  destruct (getEscrowAddress this); simpl; try discriminate;
  destruct (resolveTransferEventType _ _ _ _ _ _ _) as [[? ?]|]; simpl; try discriminate;
  destruct (getTokenAtAddress this (contractAddress t0)); simpl; discriminate.
Qed.

(** ** Letter case of addresses *)

Lemma lower_ascii_idem (c : ascii) : lower_ascii (lower_ascii c) = lower_ascii c.
Proof. destruct c as [[] [] [] [] [] [] [] []]; reflexivity. Qed.

Lemma toLowerCase_idem (s : string) : toLowerCase (toLowerCase s) = toLowerCase s.
Proof. induction s as [|c s IH]; simpl; [reflexivity|]. rewrite lower_ascii_idem, IH. reflexivity. Qed.

Lemma getTokenAtAddress_lower (this : BlockscoutAPI) (a : string) :
  getTokenAtAddress this (toLowerCase a) = getTokenAtAddress this a.
Proof. unfold getTokenAtAddress. rewrite toLowerCase_idem. reflexivity. Qed.

Lemma sortInsert_map {A B} (cmpA : A -> A -> Z) (cmpB : B -> B -> Z) (g : A -> B)
    (Hg : forall a b, cmpB (g a) (g b) = cmpA a b) (x : A) (l : list A) :
  sortInsert cmpB (g x) (map g l) = map g (sortInsert cmpA x l).
Proof.
  induction l as [|y l IH]; simpl; [reflexivity|].
  rewrite Hg. destruct (cmpA x y >? 0); simpl; [rewrite IH|]; reflexivity.
Qed.

Lemma jsSort_map {A B} (cmpA : A -> A -> Z) (cmpB : B -> B -> Z) (g : A -> B)
    (Hg : forall a b, cmpB (g a) (g b) = cmpA a b) (l : list A) :
  jsSort cmpB (map g l) = map g (jsSort cmpA l).
Proof.
  induction l as [|x l IH]; simpl; [reflexivity|].
  rewrite IH. apply sortInsert_map, Hg.
Qed.

Definition lowerGroup (entry : string * list BlockscoutTransaction)
    : string * list BlockscoutTransaction :=
  (fst entry, map lowerRow (snd entry)).

Lemma pushTx_lower (m : list (string * list BlockscoutTransaction)) (tx : BlockscoutTransaction) :
  pushTx (map lowerGroup m) (lowerRow tx) = map lowerGroup (pushTx m tx).
Proof.
  induction m as [|[h txs] m IH]; simpl; [reflexivity|].
  destruct (String.eqb h (hash tx)); simpl.
  - unfold lowerGroup; simpl. rewrite map_app. reflexivity.
  - rewrite IH. reflexivity.
Qed.

Lemma groupByHash_lower (rows : list BlockscoutTransaction) :
  groupByHash (map lowerRow rows) = map lowerGroup (groupByHash rows).
Proof.
  unfold groupByHash.
  change (@nil (string * list BlockscoutTransaction))
    with (map lowerGroup (@nil (string * list BlockscoutTransaction))) at 1.
  generalize (@nil (string * list BlockscoutTransaction)).
  induction rows as [|tx rows IH]; intros m; simpl; [reflexivity|].
  rewrite pushTx_lower. apply IH.
Qed.

Lemma forEachPush_lower {A} (f : string * list BlockscoutTransaction -> result (option A))
    (Hf : forall entry, f (lowerGroup entry) = f entry) (m : list (string * list BlockscoutTransaction)) :
  forEachPush f (map lowerGroup m) = forEachPush f m.
Proof.
  induction m as [|entry m IH]; simpl; [reflexivity|]. rewrite Hf, IH. reflexivity.
Qed.

Lemma feedEventOf_lower (this : BlockscoutAPI) (user : string)
    (entry : string * list BlockscoutTransaction) :
  feedEventOf FAUCET_ADDRESS VERIFICATION_REWARDS_ADDRESS formatCommentString this user
    (lowerGroup entry) =
  feedEventOf FAUCET_ADDRESS VERIFICATION_REWARDS_ADDRESS formatCommentString this user entry.
Proof.
  destruct entry as [h [|t0 [|t1 [|t2 l]]]]; unfold lowerGroup, feedEventOf, exchangeLegs; simpl;
  rewrite ?toLowerCase_idem, ?getTokenAtAddress_lower; try reflexivity.
  destruct (String.eqb (toLowerCase (from t0)) user); simpl;
  rewrite ?getTokenAtAddress_lower; reflexivity.
Qed.

Lemma stableTokenFilter_lower (this : BlockscoutAPI) (transactions : list BlockscoutTransaction) :
  stableTokenFilter this (map lowerRow transactions) = map lowerRow (stableTokenFilter this transactions).
Proof.
  unfold stableTokenFilter.
  induction transactions as [|t l IH]; simpl; [reflexivity|].
  rewrite toLowerCase_idem.
  destruct (bool_decide _ && negb _); simpl; rewrite IH; reflexivity.
Qed.

Lemma selectTokenTx_lower (this : BlockscoutAPI) (transactions : list BlockscoutTransaction) :
  selectTokenTx this (map lowerRow transactions) = option_map lowerRow (selectTokenTx this transactions).
Proof.
  unfold selectTokenTx. rewrite stableTokenFilter_lower.
  rewrite (jsSort_map byValueDesc byValueDesc lowerRow) by reflexivity.
  destruct (jsSort byValueDesc (stableTokenFilter this transactions))
    as [|s0 [|s1 [|s2 [|s3 l]]]]; simpl; try reflexivity.
  repeat case_match; reflexivity.
Qed.

Lemma tokenEventOf_lower (this : BlockscoutAPI) (user token : string)
    (entry : string * list BlockscoutTransaction) :
  tokenEventOf FAUCET_ADDRESS VERIFICATION_REWARDS_ADDRESS formatCommentString this user token
    (lowerGroup entry) =
  tokenEventOf FAUCET_ADDRESS VERIFICATION_REWARDS_ADDRESS formatCommentString this user token entry.
Proof.
  destruct entry as [h g].
  destruct (Nat.eq_dec (length g) 2%nat) as [H2|H2].
  - destruct g as [|t0 [|t1 [|t2 l]]]; simpl in H2; try lia.
    unfold lowerGroup, tokenEventOf, exchangeLegs; simpl. rewrite toLowerCase_idem.
    destruct (String.eqb (toLowerCase (from t0)) user); simpl;
    destruct (String.eqb (tokenSymbol t0) token); simpl; try reflexivity;
    destruct (String.eqb (tokenSymbol t1) token); reflexivity.
  - unfold lowerGroup; cbn [fst snd].
    rewrite (tokenEventOf_not_pair_eq this user token h (map lowerRow g)) by (rewrite length_map; exact H2).
    rewrite (tokenEventOf_not_pair_eq this user token h g H2).
    rewrite selectTokenTx_lower.
    destruct (selectTokenTx this g) as [event|]; simpl; [|reflexivity].
    rewrite !toLowerCase_idem. reflexivity.
Qed.

Lemma feedRewardsLoop_lower (this : BlockscoutAPI) (raw : list BlockscoutTransaction) :
  feedRewardsLoop VERIFICATION_REWARDS_ADDRESS formatCommentString this (map lowerRow raw) =
  feedRewardsLoop VERIFICATION_REWARDS_ADDRESS formatCommentString this raw.
Proof.
  induction raw as [|t raw IH]; simpl; [reflexivity|].
  rewrite toLowerCase_idem, getTokenAtAddress_lower, IH. reflexivity.
Qed.

(** ** Exchange legs *)

Lemma bn_div_wei (z : Z) :
  bn_dividedBy (inject_Z z) WEI_PER_GOLD == inject_Z z / inject_Z (10 ^ 18).
Proof.
  unfold bn_dividedBy, WEI_PER_GOLD.
  change (10 ^ 18)%Z with 1000000000000000000%Z.
  change (10 ^ 20)%Z with 100000000000000000000%Z.
  unfold Qdiv, Qinv, Qmult, inject_Z, Qeq; simpl.
  rewrite Z.mul_1_r.
  change (Z.pos (1 * 1000000000000000000)) with 1000000000000000000%Z.
  replace (2 * Z.abs z * 100000000000000000000 + 1000000000000000000)%Z
    with (100 * Z.abs z * (2 * 1000000000000000000) + 1000000000000000000)%Z by ring.
  rewrite Z.div_add_l by lia.
  rewrite (Z.div_small 1000000000000000000) by lia.
  destruct z; simpl; lia.
Qed.

Lemma weiToGold_exact (s : string) :
  weiToGold s == inject_Z (bigNumber s) / inject_Z (10 ^ 18).
Proof. apply bn_div_wei. Qed.

(** ** Rounding of [toNumber] *)

Lemma roundHalfEven_spec (n d : Z) : 0 < d ->
  Z.abs (2 * roundHalfEven n d * d - 2 * n) <= d.
Proof.
  intros Hd. unfold roundHalfEven.
  pose proof (Z.div_mod n d ltac:(lia)) as Hdm.
  pose proof (Z.mod_pos_bound n d Hd) as Hb.
  set (q := n / d) in *. set (r := n mod d) in *.
  destruct (Z.compare_spec (2 * r) d) as [E|E|E].
  - destruct (Z.even q); nia.
  - nia.
  - nia.
Qed.

Lemma scale2_ge (a d j p q : Z) : 0 <= p -> 0 <= q -> 2 ^ p <= a -> 0 < d -> d <= 2 ^ q -> j <= p - q ->
  snd (scale2 a d j) <= fst (scale2 a d j).
Proof.
  intros Hp Hq Ha Hd Hdq Hj. unfold scale2. destruct (Z.leb_spec 0 j); simpl.
  - assert (2 ^ (q + j) <= 2 ^ p) by (apply Z.pow_le_mono_r; lia).
    rewrite Z.pow_add_r in H0 by lia. nia.
  - assert (2 ^ q <= 2 ^ (p + - j)) by (apply Z.pow_le_mono_r; lia).
    rewrite Z.pow_add_r in H0 by lia. nia.
Qed.

Lemma scale2_lt (a d j p q : Z) : 0 <= p -> 0 <= q -> 0 < a -> a < 2 ^ p -> 2 ^ q <= d -> p - q <= j ->
  fst (scale2 a d j) < snd (scale2 a d j).
Proof.
  intros Hp Hq Ha Hap Hdq Hj. unfold scale2. destruct (Z.leb_spec 0 j); simpl.
  - assert (2 ^ p <= 2 ^ (q + j)) by (apply Z.pow_le_mono_r; lia).
    rewrite Z.pow_add_r in H0 by lia.
    assert (0 < 2 ^ j) by (apply Z.pow_pos_nonneg; lia). nia.
  - assert (2 ^ (p + - j) <= 2 ^ q) by (apply Z.pow_le_mono_r; lia).
    rewrite Z.pow_add_r in H0 by lia.
    assert (0 < 2 ^ (- j)) by (apply Z.pow_pos_nonneg; lia). nia.
Qed.

Lemma binaryExponent_spec (a d : Z) : 0 < a -> 0 < d ->
  snd (scale2 a d (binaryExponent a d)) <= fst (scale2 a d (binaryExponent a d)) /\
  fst (scale2 a d (binaryExponent a d + 1)) < snd (scale2 a d (binaryExponent a d + 1)).
Proof.
  intros Ha Hd.
  pose proof (Z.log2_spec a Ha) as [Ha1 Ha2].
  pose proof (Z.log2_spec d Hd) as [Hd1 Hd2].
  pose proof (Z.log2_nonneg a). pose proof (Z.log2_nonneg d).
  rewrite <- Z.add_1_r in Ha2, Hd2.
  unfold binaryExponent.
  destruct (scale2 a d (Z.log2 a - Z.log2 d)) as [n m] eqn:Hs.
  destruct (Z.ltb_spec n m) as [Hlt|Hge].
  - split.
    + apply (scale2_ge a d _ (Z.log2 a) (Z.log2 d + 1)); lia.
    + replace (Z.log2 a - Z.log2 d - 1 + 1) with (Z.log2 a - Z.log2 d) by lia.
      rewrite Hs. exact Hlt.
  - split.
    + rewrite Hs. exact Hge.
    + apply (scale2_lt a d _ (Z.log2 a + 1) (Z.log2 d)); lia.
Qed.

Lemma toNumber_rel_error (x r : Q) :
  toNumber x = Finite r ->
  Qnum x = 0 \/ Zpos (Qden x) <= Z.abs (Qnum x) * 2 ^ 1022 ->
  (Qabs (r - x) * inject_Z (2 ^ 53) <= Qabs x)%Q.
Proof.
  destruct x as [n dp]. unfold toNumber; cbn [Qnum Qden].
  set (a := Z.abs n). remember (Zpos dp) as d eqn:Hdp.
  destruct (Z.eqb_spec a 0) as [Ha0|Ha0].
  - intros Hr _. injection Hr as <-. assert (n = 0) by lia. subst n.
    unfold Qle; simpl. lia.
  - assert (Ha : 0 < a) by lia. assert (Hd : 0 < d) by lia.
    destruct (binaryExponent_spec a d Ha Hd) as [Hlo Hhi].
    set (E := binaryExponent a d) in *.
    intros Hr Hsub.
    assert (HE : -1022 <= E).
    { destruct Hsub as [Hn|Hsub]; [lia|].
      destruct (Z.le_gt_cases (-1022) E) as [|HE]; [assumption|exfalso].
      unfold scale2 in Hhi. destruct (Z.leb_spec 0 (E + 1)); [lia|]. simpl in Hhi.
      assert (2 ^ 1022 <= 2 ^ (- (E + 1))) by (apply Z.pow_le_mono_r; lia). nia. }
    replace (Z.max (E - 52) (-1074)) with (E - 52) in Hr by lia.
    destruct (scale2 a d (E - 52)) as [N D] eqn:Hs.
    (* N / D is at least 2^52 *)
    assert (Hnorm : 2 ^ 52 * D <= N /\ 0 < D).
    { unfold scale2 in Hlo, Hs.
      destruct (Z.leb_spec 0 (E - 52)) as [He|He]; injection Hs as <- <-.
      - destruct (Z.leb_spec 0 E); [|lia]. simpl in Hlo.
        replace E with (E - 52 + 52) in Hlo at 1 by lia. rewrite Z.pow_add_r in Hlo by lia.
        assert (0 < 2 ^ (E - 52)) by (apply Z.pow_pos_nonneg; lia). nia.
      - destruct (Z.leb_spec 0 E); simpl in Hlo.
        + replace (- (E - 52)) with (52 - E) by lia.
          replace (2 ^ 52) with (2 ^ (52 - E) * 2 ^ E) by (rewrite <- Z.pow_add_r by lia; f_equal; lia).
          assert (0 < 2 ^ (52 - E)) by (apply Z.pow_pos_nonneg; lia). nia.
        + replace (- (E - 52)) with (- E + 52) by lia.
          rewrite Z.pow_add_r by lia. nia. }
    destruct Hnorm as [Hnorm HD].
    pose proof (roundHalfEven_spec N D HD) as Hround.
    set (mant := roundHalfEven N D) in *.
    assert (K : Z.abs (mant * D - N) * 2 ^ 53 <= N) by lia.
    destruct ((0 <=? E - 52) && (2 ^ 1024 <=? mant * 2 ^ (E - 52))); [discriminate|].
    injection Hr as <-. rewrite Qred_correct.
    unfold scale2 in Hs.
    destruct (Z.leb_spec 0 (E - 52)) as [He|He]; injection Hs as <- <-.
    + set (P := 2 ^ (E - 52)) in *.
      assert (0 < P) by (apply Z.pow_pos_nonneg; lia).
      pose proof (Z.mul_le_mono_nonneg_r _ _ d ltac:(lia) K) as Kd.
      destruct (Z.ltb_spec n 0); unfold Qle, Qabs, Qminus, Qplus, Qopp, Qmult, inject_Z; simpl;
        rewrite ?Pos2Z.inj_mul; rewrite <- ?Hdp;
        replace (Z.pow_pos 2 53) with (2 ^ 53) by reflexivity; subst a; nia.
    + set (P := 2 ^ (- (E - 52))) in *.
      assert (0 < P) by (apply Z.pow_pos_nonneg; lia).
      assert (HP : Zpos (Z.to_pos P) = P) by (apply Z2Pos.id; lia).
      pose proof (Z.mul_le_mono_nonneg_r _ _ d ltac:(lia) K) as Kd.
      destruct (Z.ltb_spec n 0); unfold Qle, Qabs, Qminus, Qplus, Qopp, Qmult, inject_Z; simpl;
        rewrite ?Pos2Z.inj_mul, ?HP; rewrite <- ?Hdp;
        replace (Z.pow_pos 2 53) with (2 ^ 53) by reflexivity; subst a; nia.
Qed.

(** The BigNumber quotient by [WEI_PER_GOLD] is kept as [100 * v / 10^20]. *)
Lemma weiToGold_parts (s : string) :
  Qnum (weiToGold s) = 100 * bigNumber s /\ Zpos (Qden (weiToGold s)) = 10 ^ 20.
Proof.
  unfold weiToGold, bn_dividedBy, WEI_PER_GOLD.
  change (10 ^ 18)%Z with 1000000000000000000%Z.
  change (10 ^ 20)%Z with 100000000000000000000%Z.
  unfold Qdiv, Qinv, Qmult, inject_Z; simpl.
  rewrite Z.mul_1_r.
  change (Z.pos (1 * 1000000000000000000)) with 1000000000000000000%Z.
  replace (2 * Z.abs (bigNumber s) * 100000000000000000000 + 1000000000000000000)%Z
    with (100 * Z.abs (bigNumber s) * (2 * 1000000000000000000) + 1000000000000000000)%Z by ring.
  rewrite Z.div_add_l by lia.
  rewrite (Z.div_small 1000000000000000000) by lia.
  split; [|reflexivity].
  destruct (bigNumber s); simpl; lia.
Qed.

(** A finite [toNumber] of [v / 10^18] is within a relative [2^-53] of it. *)
Lemma weiToGold_rel_error (s : string) (r : Q) :
  toNumber (weiToGold s) = Finite r ->
  (Qabs (r - inject_Z (bigNumber s) / inject_Z (10 ^ 18)) * inject_Z (2 ^ 53)
   <= Qabs (inject_Z (bigNumber s) / inject_Z (10 ^ 18)))%Q.
Proof.
  intros Hr. rewrite <- (weiToGold_exact s).
  apply (toNumber_rel_error _ _ Hr).
  destruct (weiToGold_parts s) as [Hn Hd]. rewrite Hn, Hd.
  destruct (Z.eq_dec (bigNumber s) 0) as [E|E]; [left; lia|right].
  assert (1 <= Z.abs (bigNumber s)) by lia.
  assert (10 ^ 20 <= 2 ^ 1022) by (vm_compute; discriminate).
  assert (0 <= 2 ^ 1022) by (vm_compute; discriminate).
  rewrite Z.abs_mul. nia.
Qed.

(** What the two callbacks emit for a two-row group, with the legs chosen by
    the first row's sender. *)
Lemma feedEventOf_pair (this : BlockscoutAPI) (user h : string)
    (t0 t1 : BlockscoutTransaction) (ev : EventInterface) :
  feedEvent this user (h, [t0; t1]) = Ok (Some ev) ->
  let inLeg := if String.eqb (toLowerCase (from t0)) user then t0 else t1 in
  let outLeg := if String.eqb (toLowerCase (from t0)) user then t1 else t0 in
  exists x, ev = EvExchange x /\ ex_type x = EXCHANGE /\
    getTokenAtAddress this (contractAddress inLeg) = Ok (ex_inSymbol x) /\
    getTokenAtAddress this (contractAddress outLeg) = Ok (ex_outSymbol x) /\
    ex_inValue x = toNumber (weiToGold (value inLeg)) /\ ex_outValue x = toNumber (weiToGold (value outLeg)) /\
    ex_timestamp x = bigNumber (timeStamp inLeg) /\ ex_block x = bigNumber (blockNumber inLeg).
Proof.
  unfold feedEventOf, exchangeLegs; simpl.
  destruct (String.eqb (toLowerCase (from t0)) user); simpl;
  [destruct (getTokenAtAddress this (contractAddress t0)) eqn:E0; simpl; [|discriminate];
   destruct (getTokenAtAddress this (contractAddress t1)) eqn:E1; simpl; [|discriminate]
  |destruct (getTokenAtAddress this (contractAddress t1)) eqn:E1; simpl; [|discriminate];
   destruct (getTokenAtAddress this (contractAddress t0)) eqn:E0; simpl; [|discriminate]];
  intros H; injection H as <-; eexists; repeat split; eauto.
Qed.

Lemma tokenEventOf_pair (this : BlockscoutAPI) (user token h : string)
    (t0 t1 : BlockscoutTransaction) (ev : TokenEvent) :
  tokenEvent this user token (h, [t0; t1]) = Ok (Some ev) ->
  let inLeg := if String.eqb (toLowerCase (from t0)) user then t0 else t1 in
  let outLeg := if String.eqb (toLowerCase (from t0)) user then t1 else t0 in
  let ts := bigNumber (timeStamp inLeg) * 1000 in
  exists x, ev = TokExchange x /\ te_type x = EXCHANGE /\
    te_makerAmount x = {| am_value := weiToGold (value inLeg);
                          currencyCode := tokenSymbol inLeg; am_timestamp := ts |} /\
    te_takerAmount x = {| am_value := weiToGold (value outLeg);
                          currencyCode := tokenSymbol outLeg; am_timestamp := ts |} /\
    am_timestamp (te_amount x) = ts /\ te_timestamp x = ts /\ te_block x = blockNumber inLeg.
Proof.
  unfold tokenEventOf, exchangeLegs; simpl.
  destruct (String.eqb (toLowerCase (from t0)) user); simpl;
  intros Hev; repeat case_match; simplify_eq/=; eexists; repeat split.
Qed.

(** ** C2 *)

(** Claim C2 (as amended): in a group of exactly two rows, the first row is
    the in leg and the second the out leg when the first row's lower-cased
    [from] is the viewing address; otherwise (the second row's [from]
    matches, or neither does) the second row is the in leg and the first
    the out leg. This holds in [getFeedEvents] and in [getTokenTransactions]. *)
Theorem exchange_in_leg_choice (this : BlockscoutAPI) (user token h : string)
    (t0 t1 : BlockscoutTransaction) (ev : EventInterface) (tev : TokenEvent) :
  let inLeg := if String.eqb (toLowerCase (from t0)) user then t0 else t1 in
  let outLeg := if String.eqb (toLowerCase (from t0)) user then t1 else t0 in
  (feedEvent this user (h, [t0; t1]) = Ok (Some ev) ->
   exists x, ev = EvExchange x /\
     getTokenAtAddress this (contractAddress inLeg) = Ok (ex_inSymbol x) /\
     getTokenAtAddress this (contractAddress outLeg) = Ok (ex_outSymbol x) /\
     ex_inValue x = toNumber (weiToGold (value inLeg)) /\ ex_outValue x = toNumber (weiToGold (value outLeg))) /\
  (tokenEvent this user token (h, [t0; t1]) = Ok (Some tev) ->
   exists x, tev = TokExchange x /\
     currencyCode (te_makerAmount x) = tokenSymbol inLeg /\
     am_value (te_makerAmount x) = weiToGold (value inLeg) /\
     currencyCode (te_takerAmount x) = tokenSymbol outLeg /\
     am_value (te_takerAmount x) = weiToGold (value outLeg)).
Proof.
  split.
  - intros H. destruct (feedEventOf_pair this user h t0 t1 ev H)
      as (x & -> & _ & Hi & Ho & Hvi & Hvo & _).
    exists x. repeat split; assumption.
  - intros H. destruct (tokenEventOf_pair this user token h t0 t1 tev H)
      as (x & -> & _ & Hm & Ht & _ & _).
    exists x. rewrite Hm, Ht. repeat split.
Qed.

(** ** C8 *)

(** Claim C8 (as corrected): for a group of exactly two rows, the emitted
    EXCHANGE event's in and out values are [toNumber()] of the in and out
    legs' [value] divided by 10^18, a quotient BigNumber computes exactly:
    the JS double nearest to it, within a relative [2^-53] of it when
    finite. The event's timestamp and block come from the in leg. *)
Theorem exchange_values_rounded (this : BlockscoutAPI) (user h : string)
    (t0 t1 : BlockscoutTransaction) (ev : EventInterface) :
  feedEvent this user (h, [t0; t1]) = Ok (Some ev) ->
  let inLeg := if String.eqb (toLowerCase (from t0)) user then t0 else t1 in
  let outLeg := if String.eqb (toLowerCase (from t0)) user then t1 else t0 in
  let inExact := (inject_Z (bigNumber (value inLeg)) / inject_Z (10 ^ 18))%Q in
  let outExact := (inject_Z (bigNumber (value outLeg)) / inject_Z (10 ^ 18))%Q in
  exists x, ev = EvExchange x /\ ex_type x = EXCHANGE /\
    weiToGold (value inLeg) == inExact /\
    ex_inValue x = toNumber (weiToGold (value inLeg)) /\
    (forall r, ex_inValue x = Finite r ->
       (Qabs (r - inExact) * inject_Z (2 ^ 53) <= Qabs inExact)%Q) /\
    weiToGold (value outLeg) == outExact /\
    ex_outValue x = toNumber (weiToGold (value outLeg)) /\
    (forall r, ex_outValue x = Finite r ->
       (Qabs (r - outExact) * inject_Z (2 ^ 53) <= Qabs outExact)%Q) /\
    ex_timestamp x = bigNumber (timeStamp inLeg) /\ ex_block x = bigNumber (blockNumber inLeg).
Proof.
  intros H. destruct (feedEventOf_pair this user h t0 t1 ev H)
    as (x & -> & Ht & _ & _ & Hvi & Hvo & Hts & Hb).
  exists x. rewrite Hvi, Hvo.
  repeat split; try assumption; try apply weiToGold_exact;
    intros r Hr; apply weiToGold_rel_error; exact Hr.
Qed.

(** ** C5 *)

(** Claim C5: each feed variant returns what it collected (groups, or rows
    for the rewards, in processing order; for [getTokenTransactions] after
    the token filter) sorted by timestamp in descending order, and the sort
    is stable: events with equal timestamps keep their processing order. *)
Theorem feeds_sorted_by_timestamp (addresses : ContractAddresses) (this : BlockscoutAPI)
    (argsAddress token : string) (raw : list BlockscoutTransaction) :
  sortsCollected ev_timestamp
    (snd (getFeedEventsUnsorted FAUCET_ADDRESS VERIFICATION_REWARDS_ADDRESS formatCommentString
            addresses this argsAddress raw))
    (snd (getFeedEvents FAUCET_ADDRESS VERIFICATION_REWARDS_ADDRESS formatCommentString
            addresses this argsAddress raw)) /\
  sortsCollected tr_timestamp
    (feedRewardsLoop VERIFICATION_REWARDS_ADDRESS formatCommentString
       (fst (ensureTokenAddresses addresses this)) raw)
    (snd (getFeedRewards VERIFICATION_REWARDS_ADDRESS formatCommentString addresses this raw)) /\
  sortsCollected tok_timestamp
    (snd (getTokenTransactionsUnsorted FAUCET_ADDRESS VERIFICATION_REWARDS_ADDRESS
            formatCommentString addresses this argsAddress token raw))
    (snd (getTokenTransactions FAUCET_ADDRESS VERIFICATION_REWARDS_ADDRESS formatCommentString
            addresses this argsAddress token raw)).
Proof.
  split; [|split].
  - unfold getFeedEvents.
    destruct (getFeedEventsUnsorted _ _ _ addresses this argsAddress raw) as [[a b] [pre|e]];
      simpl; [apply jsSort_stableDescending | reflexivity].
  - unfold getFeedRewards. destruct (ensureTokenAddresses addresses this) as [a b]; simpl.
    destruct (feedRewardsLoop _ _ a raw) as [pre|e];
      simpl; [apply jsSort_stableDescending | reflexivity].
  - unfold getTokenTransactions.
    destruct (getTokenTransactionsUnsorted _ _ _ addresses this argsAddress token raw)
      as [[a b] [pre|e]]; simpl; [apply jsSort_stableDescending | reflexivity].
Qed.

(** ** C3 *)

(** Claim C3 (as amended): in [getTokenTransactions], when exactly three
    rows of a group survive the stable-token filter, let [s0; s1; s2] be them
    sorted (stably) by value, highest first, and gas the [gasUsed * gasPrice]
    of [s0]. The code selects [s2] if [s0 + s1] is the gas cost, otherwise
    [s1] if [s0 + s2] is, otherwise [s0], the highest-value row. Hence when
    exactly one pair sums to the gas cost the row outside that pair is
    selected, and when no pair does the highest-value row is selected. *)
Theorem selectTokenTx_fee_triple (this : BlockscoutAPI)
    (transactions : list BlockscoutTransaction) :
  length (stableTokenFilter this transactions) = 3%nat ->
  exists s0 s1 s2,
    let v := fun r => bigNumber (value r) in
    let gas := bigNumber (gasUsed s0) * bigNumber (gasPrice s0) in
    let selected := selectTokenTx this transactions in
    jsSort byValueDesc (stableTokenFilter this transactions) = [s0; s1; s2] /\
    Permutation (stableTokenFilter this transactions) [s0; s1; s2] /\
    v s2 <= v s1 <= v s0 /\
    selected = Some (if v s0 + v s1 =? gas then s2 else if v s0 + v s2 =? gas then s1 else s0) /\
    (v s0 + v s1 = gas -> v s0 + v s2 <> gas -> v s1 + v s2 <> gas -> selected = Some s2) /\
    (v s0 + v s2 = gas -> v s0 + v s1 <> gas -> v s1 + v s2 <> gas -> selected = Some s1) /\
    (v s1 + v s2 = gas -> v s0 + v s1 <> gas -> v s0 + v s2 <> gas -> selected = Some s0) /\
    (v s0 + v s1 <> gas -> v s0 + v s2 <> gas -> v s1 + v s2 <> gas ->
     selected = Some s0 /\
     forall r, In r (stableTokenFilter this transactions) -> v r <= v s0).
Proof.
  intros Hlen.
  pose proof (jsSort_perm byValueDesc (stableTokenFilter this transactions)) as Hperm.
  pose proof (jsSort_sorted (fun r => bigNumber (value r)) (stableTokenFilter this transactions))
    as Hsorted.
  pose proof (jsSort_length byValueDesc (stableTokenFilter this transactions)) as Hl.
  cbv beta in Hsorted.
  change (fun a b => bigNumber (value b) - bigNumber (value a)) with byValueDesc in Hsorted.
  unfold selectTokenTx.
  destruct (jsSort byValueDesc (stableTokenFilter this transactions))
    as [|s0 [|s1 [|s2 [|s3 l]]]] eqn:E; simpl in Hl; try lia.
  apply Sorted_inv in Hsorted as [Hs1 H0]. apply HdRel_inv in H0.
  apply Sorted_inv in Hs1 as [_ H1]. apply HdRel_inv in H1.
  exists s0, s1, s2. simpl.
  split; [reflexivity|]. split; [exact Hperm|]. split; [lia|].
  destruct (Z.eqb_spec (bigNumber (value s0) + bigNumber (value s1))
              (bigNumber (gasUsed s0) * bigNumber (gasPrice s0)));
  destruct (Z.eqb_spec (bigNumber (value s0) + bigNumber (value s2))
              (bigNumber (gasUsed s0) * bigNumber (gasPrice s0)));
  repeat split; intros; try reflexivity; try contradiction.
  all: match goal with
       | Hin : In ?r _ |- _ =>
           apply (Permutation_in r Hperm) in Hin; simpl in Hin;
           destruct Hin as [<-|[<-|[<-|[]]]]; lia
       end.
Qed.

(** ** C4 *)

(** Claim C4 (as amended): a group whose size is not 2 is never dropped by
    [getFeedEvents]: its callback either throws or emits one event built
    from the group's first row. In [getTokenTransactions] such a group emits
    no event exactly when the number of its rows that pass the stable-token,
    non-zero filter is neither 1 nor 3. *)
Theorem groups_not_two_rows (this : BlockscoutAPI) (user token h : string)
    (transactions : list BlockscoutTransaction) :
  length transactions <> 2%nat ->
  feedEvent this user (h, transactions) <> Ok None /\
  (forall e, feedEvent this user (h, transactions) = Ok (Some e) ->
   exists t rest x, transactions = t :: rest /\ e = EvTransfer x /\
     tr_timestamp x = bigNumber (timeStamp t) /\ tr_value x = toNumber (weiToGold (value t))) /\
  (tokenEvent this user token (h, transactions) = Ok None <->
   length (stableTokenFilter this transactions) <> 1%nat /\
   length (stableTokenFilter this transactions) <> 3%nat).
Proof.
  intros Hlen. split; [apply feedEventOf_never_drops; exact Hlen|]. split.
  - intros e He. destruct (feedEventOf_not_pair this user h transactions e Hlen He)
      as (t & rest & x & Ht & Hx & Hts & Hv & _).
    exists t, rest, x. repeat split; assumption.
  - rewrite tokenEventOf_not_pair by exact Hlen. apply selectTokenTx_None.
Qed.

(** ** C10 *)

(** Claim C10: in [getTokenTransactions], a group whose size is not 2 emits
    an event only if exactly 1 or exactly 3 of its rows are non-zero
    stable-token transfers; so a one-row feed whose row is not a non-zero
    stable-token transfer (e.g. a lone gold-token transfer) yields no event,
    whatever token is requested. *)
Theorem token_feed_stable_gate (this : BlockscoutAPI) (token : string) :
  (forall user h transactions e,
     length transactions <> 2%nat ->
     tokenEvent this user token (h, transactions) = Ok (Some e) ->
     length (stableTokenFilter this transactions) = 1%nat \/
     length (stableTokenFilter this transactions) = 3%nat) /\
  (forall addresses argsAddress r,
     stableTokenFilter (fst (ensureTokenAddresses addresses this)) [r] = [] ->
     snd (getTokenTransactions FAUCET_ADDRESS VERIFICATION_REWARDS_ADDRESS formatCommentString
            addresses this argsAddress token [r]) = Ok []).
Proof.
  split.
  - intros user h transactions e Hlen He.
    destruct (Nat.eq_dec (length (stableTokenFilter this transactions)) 1%nat) as [|H1]; [now left|].
    destruct (Nat.eq_dec (length (stableTokenFilter this transactions)) 3%nat) as [|H3]; [now right|].
    exfalso.
    assert (Hn : tokenEvent this user token (h, transactions) = Ok None).
    { apply (tokenEventOf_not_pair this user token h transactions Hlen).
      apply selectTokenTx_None. tauto. }
    congruence.
  - intros addresses argsAddress r Hf.
    unfold getTokenTransactions, getTokenTransactionsUnsorted.
    destruct (ensureTokenAddresses addresses this) as [this' calls]; cbn [fst] in Hf.
    assert (Hs : selectTokenTx this' [r] = None) by (unfold selectTokenTx; rewrite Hf; reflexivity).
    cbn -[selectTokenTx]. rewrite Hs. reflexivity.
Qed.

(** ** C6 *)

(** Claim C6: once every registry field holds a value ([tokenAddressMapping]
    an object, the four addresses non-empty strings, i.e. all truthy), a call
    of [ensureTokenAddresses] issues no outbound request and leaves the
    registry unchanged; in particular a second call after a successful
    population with non-empty addresses is a no-op. *)
Theorem ensureTokenAddresses_idempotent (addresses : ContractAddresses) (this : BlockscoutAPI)
    (m : gmap string string) (att esc gold stable : string) :
  tokenAddressMapping this = Some m ->
  attestationsAddress this = Some att -> att <> "" ->
  escrowAddress this = Some esc -> esc <> "" ->
  goldTokenAddress this = Some gold -> gold <> "" ->
  stableTokenAddress this = Some stable -> stable <> "" ->
  ensureTokenAddresses addresses this = (this, []) /\
  (ca_attestationsAddress addresses <> "" -> ca_escrowAddress addresses <> "" ->
   ca_goldTokenAddress addresses <> "" -> ca_stableTokenAddress addresses <> "" ->
   forall this0 : BlockscoutAPI,
     let this1 := fst (ensureTokenAddresses addresses this0) in
     ensureTokenAddresses addresses this1 = (this1, [])).
Proof.
  assert (Ht : forall s, s <> "" -> truthy (Some s) = true).
  { intros s Hs. unfold truthy. destruct (String.eqb_spec s ""); [contradiction|reflexivity]. }
  intros Hm Ha Hna He Hne Hg Hng Hs Hns. split.
  - unfold ensureTokenAddresses.
    rewrite Hm, Ha, He, Hg, Hs, (Ht att Hna), (Ht esc Hne), (Ht gold Hng), (Ht stable Hns).
    reflexivity.
  - intros H1 H2 H3 H4 this0 this1.
    assert (Hf : forall this', ensureTokenAddresses addresses this' = (this', []) \/
                 ensureTokenAddresses addresses this' =
                   ({| attestationsAddress := Some (ca_attestationsAddress addresses);
                       tokenAddressMapping := Some (ca_tokenAddressMapping addresses);
                       escrowAddress := Some (ca_escrowAddress addresses);
                       goldTokenAddress := Some (ca_goldTokenAddress addresses);
                       stableTokenAddress := Some (ca_stableTokenAddress addresses) |},
                    [GetContractAddresses])).
    { intros this'. unfold ensureTokenAddresses. case_match; [left|right]; reflexivity. }
    subst this1. destruct (Hf this0) as [E|E]; rewrite E; cbn [fst]; [exact E|].
    unfold ensureTokenAddresses;
      cbn [tokenAddressMapping attestationsAddress escrowAddress goldTokenAddress
           stableTokenAddress].
    rewrite (Ht _ H1), (Ht _ H2), (Ht _ H3), (Ht _ H4). reflexivity.
Qed.

(** ** Rows of the rewards *)

Local Abbreviation rewardsLoop := (feedRewardsLoop VERIFICATION_REWARDS_ADDRESS formatCommentString).

Lemma feedRewardsLoop_rows (this : BlockscoutAPI) (raw : list BlockscoutTransaction)
    (rs : list TransferEvent) :
  rewardsLoop this raw = Ok rs ->
  Forall2 (fun t r => tr_type r = VERIFICATION_REWARD /\ tr_address r = VERIFICATION_REWARDS_ADDRESS /\
             tr_hash r = hash t /\ getTokenAtAddress this (contractAddress t) = Ok (tr_symbol r) /\
             tr_value r = toNumber (weiToGold (value t)) /\
             tr_timestamp r = bigNumber (timeStamp t) /\ tr_block r = bigNumber (blockNumber t))
    (List.filter (isRewardRow VERIFICATION_REWARDS_ADDRESS) raw) rs.
Proof.
  revert rs. induction raw as [|t raw IH]; intros rs H; simpl in H.
  - injection H as <-. constructor.
  - simpl. change (isRewardRow VERIFICATION_REWARDS_ADDRESS t)
      with (String.eqb (toLowerCase (from t)) VERIFICATION_REWARDS_ADDRESS).
    destruct (String.eqb (toLowerCase (from t)) VERIFICATION_REWARDS_ADDRESS); simpl in H.
    + destruct (getTokenAtAddress this (contractAddress t)) as [sym|e] eqn:Es; simpl in H;
        [|discriminate].
      destruct (rewardsLoop this raw) as [rest|e] eqn:Er; simpl in H; [|discriminate].
      injection H as <-. constructor; [|apply IH; reflexivity].
      repeat split; exact Es.
    + apply IH, H.
Qed.

(** ** C7 *)

(** Claim C7 (as amended): [getFeedEvents] and [getFeedRewards] events carry
    their own row's [timeStamp] as a number of seconds and its [blockNumber]
    as an integer: the in leg's for an exchange, the group's first row's for
    a transfer, and for the rewards the reward row each one is built from
    (one reward per row from the rewards address, in order). Events of
    [getTokenTransactions] carry their row's [timeStamp] times 1000
    (milliseconds), in the event and in its amount, and the raw
    [blockNumber] string as block: the in leg's for an exchange, the row
    [selectTokenTx] picks for a transfer. *)
Theorem event_timestamp_units (this : BlockscoutAPI) (user token h : string)
    (transactions raw : list BlockscoutTransaction) :
  (forall e, feedEvent this user (h, transactions) = Ok (Some e) ->
   exists t,
     match transactions with
     | [t0; t1] => t = (if String.eqb (toLowerCase (from t0)) user then t0 else t1)
     | _ => hd_error transactions = Some t
     end /\
     ev_timestamp e = bigNumber (timeStamp t) /\ ev_block e = bigNumber (blockNumber t)) /\
  (forall rewards,
   feedRewardsLoop VERIFICATION_REWARDS_ADDRESS formatCommentString this raw = Ok rewards ->
   Forall2 (fun t r => tr_timestamp r = bigNumber (timeStamp t) /\
                       tr_block r = bigNumber (blockNumber t))
     (List.filter (isRewardRow VERIFICATION_REWARDS_ADDRESS) raw) rewards) /\
  (forall e, tokenEvent this user token (h, transactions) = Ok (Some e) ->
   exists t,
     match transactions with
     | [t0; t1] => t = (if String.eqb (toLowerCase (from t0)) user then t0 else t1)
     | _ => selectTokenTx this transactions = Some t
     end /\
     tok_timestamp e = bigNumber (timeStamp t) * 1000 /\
     am_timestamp (tok_amount e) = bigNumber (timeStamp t) * 1000 /\
     tok_block e = blockNumber t).
Proof.
  split; [|split].
  - intros e He.
    destruct (Nat.eq_dec (length transactions) 2%nat) as [H2|H2].
    + destruct transactions as [|t0 [|t1 [|t2 l]]]; simpl in H2; try lia.
      destruct (feedEventOf_pair this user h t0 t1 e He)
        as (x & -> & _ & _ & _ & _ & _ & Hts & Hb).
      exists (if String.eqb (toLowerCase (from t0)) user then t0 else t1).
      split; [reflexivity|]. split; assumption.
    + destruct (feedEventOf_not_pair this user h transactions e H2 He)
        as (t & rest & x & -> & -> & Hts & _ & Hb & _).
      exists t. split; [|split; assumption].
      destruct rest as [|t1 [|t2 l]]; [reflexivity| simpl in H2; lia | reflexivity].
  - intros rewards Hr.
    eapply Forall2_impl; [exact (feedRewardsLoop_rows this raw rewards Hr)|].
    intros t r (_ & _ & _ & _ & _ & Hts & Hb). split; assumption.
  - intros e He.
    destruct (Nat.eq_dec (length transactions) 2%nat) as [H2|H2].
    + destruct transactions as [|t0 [|t1 [|t2 l]]]; simpl in H2; try lia.
      destruct (tokenEventOf_pair this user token h t0 t1 e He)
        as (x & -> & _ & _ & _ & Ham & Hts & Hb).
      exists (if String.eqb (toLowerCase (from t0)) user then t0 else t1).
      split; [reflexivity|].
      simpl. split; [exact Hts|]. split; assumption.
    + destruct (tokenEventOf_not_pair_Some this user token h transactions e H2 He)
        as (event & x & Hsel & -> & Hts & Hams & Hb).
      exists event. split; [|simpl; split; [exact Hts|]; split; assumption].
      destruct transactions as [|t0 [|t1 [|t2 l]]];
        [exact Hsel | exact Hsel | simpl in H2; lia | exact Hsel].
Qed.

(** ** C9 *)

(** Claim C9: address comparisons are case-insensitive. [getTokenAtAddress]
    gives the same answer for two addresses that differ only in letter
    case, and each feed variant gives the same result (registry, requests,
    events or error) for two inputs whose viewing addresses and whose rows'
    [from], [to] and [contractAddress] differ only in letter case: the
    stable-token filter, the exchange leg choice and the well-known-address
    rules decide alike. *)
Theorem address_comparisons_case_insensitive (addresses : ContractAddresses)
    (this : BlockscoutAPI) :
  (forall a a', toLowerCase a = toLowerCase a' ->
     getTokenAtAddress this a = getTokenAtAddress this a') /\
  (forall user user' token rows rows',
     toLowerCase user = toLowerCase user' -> map lowerRow rows = map lowerRow rows' ->
     getFeedEvents FAUCET_ADDRESS VERIFICATION_REWARDS_ADDRESS formatCommentString
       addresses this user rows =
     getFeedEvents FAUCET_ADDRESS VERIFICATION_REWARDS_ADDRESS formatCommentString
       addresses this user' rows' /\
     getTokenTransactions FAUCET_ADDRESS VERIFICATION_REWARDS_ADDRESS formatCommentString
       addresses this user token rows =
     getTokenTransactions FAUCET_ADDRESS VERIFICATION_REWARDS_ADDRESS formatCommentString
       addresses this user' token rows' /\
     getFeedRewards VERIFICATION_REWARDS_ADDRESS formatCommentString addresses this rows =
     getFeedRewards VERIFICATION_REWARDS_ADDRESS formatCommentString addresses this rows').
Proof.
  split.
  - intros a a' H. rewrite <- (getTokenAtAddress_lower this a), H. apply getTokenAtAddress_lower.
  - intros user user' token rows rows' Hu Hr.
    assert (Hfeed : forall u rs,
      getFeedEvents FAUCET_ADDRESS VERIFICATION_REWARDS_ADDRESS formatCommentString
        addresses this u rs =
      getFeedEvents FAUCET_ADDRESS VERIFICATION_REWARDS_ADDRESS formatCommentString
        addresses this u (map lowerRow rs)).
    { intros u rs. unfold getFeedEvents, getFeedEventsUnsorted.
      rewrite groupByHash_lower.
      destruct (ensureTokenAddresses addresses this) as [this' calls].
      rewrite forEachPush_lower by (intros; apply feedEventOf_lower). reflexivity. }
    assert (Htok : forall u rs,
      getTokenTransactions FAUCET_ADDRESS VERIFICATION_REWARDS_ADDRESS formatCommentString
        addresses this u token rs =
      getTokenTransactions FAUCET_ADDRESS VERIFICATION_REWARDS_ADDRESS formatCommentString
        addresses this u token (map lowerRow rs)).
    { intros u rs. unfold getTokenTransactions, getTokenTransactionsUnsorted.
      rewrite groupByHash_lower.
      destruct (ensureTokenAddresses addresses this) as [this' calls].
      rewrite forEachPush_lower by (intros; apply tokenEventOf_lower). reflexivity. }
    split; [|split].
    + rewrite Hfeed, (Hfeed user' rows'), Hr.
      unfold getFeedEvents, getFeedEventsUnsorted. rewrite Hu. reflexivity.
    + rewrite Htok, (Htok user' rows'), Hr.
      unfold getTokenTransactions, getTokenTransactionsUnsorted. rewrite Hu. reflexivity.
    + unfold getFeedRewards.
      destruct (ensureTokenAddresses addresses this) as [this' calls].
      rewrite <- (feedRewardsLoop_lower this' rows), <- (feedRewardsLoop_lower this' rows'), Hr.
      reflexivity.
Qed.

(** ** Grouping by hash *)

Lemma firstSeenStep_In (acc : list string) (h x : string) :
  In x (firstSeenStep acc h) <-> In x acc \/ x = h.
Proof.
  unfold firstSeenStep. destruct (existsb (String.eqb h) acc) eqn:E.
  - apply existsb_exists in E as (y & Hy & Heq). apply String.eqb_eq in Heq. subst y.
    split; [tauto|]. intros [H| ->]; assumption.
  - rewrite in_app_iff. simpl. split; intros [H|H]; try tauto; intuition congruence.
Qed.

Lemma firstSeenStep_NoDup (acc : list string) (h : string) :
  List.NoDup acc -> List.NoDup (firstSeenStep acc h).
Proof.
  intros Hnd. unfold firstSeenStep. destruct (existsb (String.eqb h) acc) eqn:E; [exact Hnd|].
  apply (Permutation_NoDup (Permutation_cons_append acc h)). constructor; [|exact Hnd].
  intros Hx.
  assert (Ht : existsb (String.eqb h) acc = true)
    by (apply existsb_exists; exists h; split; [exact Hx|apply String.eqb_refl]).
  congruence.
Qed.

Lemma firstSeen_fold_In (hs acc : list string) (x : string) :
  In x (fold_left firstSeenStep hs acc) <-> In x acc \/ In x hs.
Proof.
  revert acc. induction hs as [|h hs IH]; intros acc; simpl; [tauto|].
  rewrite IH, firstSeenStep_In. intuition congruence.
Qed.

Lemma firstSeen_fold_NoDup (hs acc : list string) :
  List.NoDup acc -> List.NoDup (fold_left firstSeenStep hs acc).
Proof.
  revert acc. induction hs as [|h hs IH]; intros acc Hnd; simpl; [exact Hnd|].
  apply IH, firstSeenStep_NoDup, Hnd.
Qed.

Lemma firstSeen_In (hs : list string) (x : string) : In x (firstSeen hs) <-> In x hs.
Proof. unfold firstSeen. rewrite firstSeen_fold_In. simpl. tauto. Qed.

Lemma firstSeen_NoDup (hs : list string) : List.NoDup (firstSeen hs).
Proof. apply firstSeen_fold_NoDup. constructor. Qed.

Lemma firstSeen_snoc (hs : list string) (h : string) :
  firstSeen (hs ++ [h]) = firstSeenStep (firstSeen hs) h.
Proof. unfold firstSeen. rewrite fold_left_app. reflexivity. Qed.

(** [pushTx] on a map whose keys are distinct appends to the group of the
    row's hash, or opens a new group at the end. *)
Lemma pushTx_keys (K : list string) (f f' : string -> list BlockscoutTransaction)
    (tx : BlockscoutTransaction) :
  List.NoDup K -> (forall h, h <> hash tx -> f' h = f h) -> f' (hash tx) = f (hash tx) ++ [tx] ->
  (In (hash tx) K -> pushTx (map (fun h => (h, f h)) K) tx = map (fun h => (h, f' h)) K) /\
  (~ In (hash tx) K -> f (hash tx) = [] ->
   pushTx (map (fun h => (h, f h)) K) tx = map (fun h => (h, f' h)) (K ++ [hash tx])).
Proof.
  intros Hnd Hother Hself. induction K as [|k K IH]; simpl.
  - split; [intros []|]. intros _ Hnil. rewrite Hself, Hnil. reflexivity.
  - apply NoDup_cons_iff in Hnd as [Hk Hnd]. specialize (IH Hnd).
    destruct (String.eqb_spec k (hash tx)) as [->|Hne].
    + split; [|intros Hn; exfalso; apply Hn; left; reflexivity].
      intros _. rewrite Hself. f_equal. apply map_ext_in. intros h Hh.
      rewrite Hother; [reflexivity|]. intros ->. contradiction.
    + rewrite (Hother k Hne). split.
      * intros [Heq|Hin]; [congruence|]. rewrite (proj1 IH Hin). reflexivity.
      * intros Hn Hnil. rewrite (proj2 IH (fun H => Hn (or_intror H)) Hnil). reflexivity.
Qed.

Lemma groupsOf_snoc (pre : list BlockscoutTransaction) (tx : BlockscoutTransaction) :
  pushTx (groupsOf pre) tx = groupsOf (pre ++ [tx]).
Proof.
  unfold groupsOf. rewrite map_app. cbn [map]. rewrite firstSeen_snoc.
  set (K := firstSeen (map hash pre)).
  set (f := fun h => List.filter (fun r => String.eqb (hash r) h) pre).
  set (f' := fun h => List.filter (fun r => String.eqb (hash r) h) (pre ++ [tx])).
  assert (Hf' : forall h, f' h = f h ++ (if String.eqb (hash tx) h then [tx] else [])).
  { intros h. subst f f'. simpl. rewrite List.filter_app. reflexivity. }
  assert (Hother : forall h, h <> hash tx -> f' h = f h).
  { intros h Hh. rewrite Hf'. destruct (String.eqb_spec (hash tx) h); [congruence|].
    apply app_nil_r. }
  assert (Hself : f' (hash tx) = f (hash tx) ++ [tx]) by (rewrite Hf', String.eqb_refl; reflexivity).
  destruct (pushTx_keys K f f' tx (firstSeen_NoDup _) Hother Hself) as [Hin Hnew].
  change (pushTx (map (fun h => (h, f h)) K) tx =
          map (fun h => (h, f' h)) (firstSeenStep K (hash tx))).
  unfold firstSeenStep. destruct (existsb (String.eqb (hash tx)) K) eqn:E.
  - apply Hin. apply existsb_exists in E as (y & Hy & Heq).
    apply String.eqb_eq in Heq. subst y. exact Hy.
  - assert (Hn : ~ In (hash tx) K).
    { intros Hk. assert (existsb (String.eqb (hash tx)) K = true)
        by (apply existsb_exists; exists (hash tx); split; [exact Hk|apply String.eqb_refl]).
      congruence. }
    apply (Hnew Hn).
    destruct (f (hash tx)) as [|r rs] eqn:Ef; [reflexivity|exfalso].
    assert (Hr : In r (f (hash tx))) by (rewrite Ef; left; reflexivity).
    subst f. simpl in Hr. apply filter_In in Hr as [Hr Heq]. apply String.eqb_eq in Heq.
    apply Hn. subst K. apply firstSeen_In. rewrite <- Heq. apply in_map, Hr.
Qed.

Lemma groupByHash_groupsOf (rows : list BlockscoutTransaction) : groupByHash rows = groupsOf rows.
Proof.
  unfold groupByHash.
  change (@nil (string * list BlockscoutTransaction)) with (groupsOf []).
  change rows with ([] ++ rows) at 2.
  generalize (@nil BlockscoutTransaction) as pre.
  induction rows as [|tx rows IH]; intros pre; simpl.
  - rewrite app_nil_r. reflexivity.
  - rewrite groupsOf_snoc, IH, <- app_assoc. reflexivity.
Qed.

Lemma groupByHash_keys (rows : list BlockscoutTransaction) :
  map fst (groupByHash rows) = firstSeen (map hash rows).
Proof.
  rewrite groupByHash_groupsOf. unfold groupsOf. rewrite map_map. apply map_id.
Qed.

Lemma groupByHash_nonempty (rows : list BlockscoutTransaction) (h : string)
    (g : list BlockscoutTransaction) :
  In (h, g) (groupByHash rows) -> g <> [].
Proof.
  rewrite groupByHash_groupsOf. unfold groupsOf. intros Hin.
  apply in_map_iff in Hin as (h' & Heq & Hh). injection Heq as -> <-.
  apply firstSeen_In, in_map_iff in Hh as (r & Hr & Hin).
  intros Hnil.
  assert (Hf : In r (List.filter (fun r0 => String.eqb (hash r0) h) rows))
    by (apply filter_In; split; [exact Hin|apply String.eqb_eq; exact Hr]).
  rewrite Hnil in Hf. exact Hf.
Qed.

Lemma filter_partition_perm {A} (p : A -> bool) (l : list A) :
  Permutation (List.filter p l ++ List.filter (fun x => negb (p x)) l) l.
Proof.
  induction l as [|x l IH]; simpl; [reflexivity|].
  destruct (p x); simpl.
  - constructor. exact IH.
  - rewrite <- Permutation_middle. constructor. exact IH.
Qed.

Lemma filter_hash_other (rows : list BlockscoutTransaction) (h k : string) :
  h <> k ->
  List.filter (fun r => String.eqb (hash r) h)
    (List.filter (fun r => negb (String.eqb (hash r) k)) rows) =
  List.filter (fun r => String.eqb (hash r) h) rows.
Proof.
  intros Hne. induction rows as [|r rows IH]; simpl; [reflexivity|].
  destruct (String.eqb_spec (hash r) k) as [Hk|Hk]; simpl.
  - destruct (String.eqb_spec (hash r) h); [congruence|exact IH].
  - destruct (String.eqb (hash r) h); [f_equal|]; exact IH.
Qed.

Lemma concat_groups_perm (K : list string) (rows : list BlockscoutTransaction) :
  List.NoDup K -> (forall r, In r rows -> In (hash r) K) ->
  Permutation (concat (map (fun h => List.filter (fun r => String.eqb (hash r) h) rows) K)) rows.
Proof.
  revert rows. induction K as [|k K IH]; intros rows Hnd Hcov; simpl.
  - destruct rows as [|r rows]; [reflexivity|]. destruct (Hcov r (or_introl eq_refl)).
  - apply NoDup_cons_iff in Hnd as [Hk Hnd].
    set (rest := List.filter (fun r => negb (String.eqb (hash r) k)) rows).
    rewrite (map_ext_in _ (fun h => List.filter (fun r => String.eqb (hash r) h) rest)).
    + rewrite (IH rest Hnd).
      * apply filter_partition_perm.
      * intros r Hr. subst rest. apply filter_In in Hr as [Hr Hneq].
        destruct (Hcov r Hr) as [Heq|Hin]; [|exact Hin].
        rewrite Heq, String.eqb_refl in Hneq. discriminate.
    + intros h Hh. subst rest. rewrite filter_hash_other; [reflexivity|].
      intros ->. contradiction.
Qed.

(** ** X1 *)

(** Extra X1: [groupByHash] (the [Map] filled by the loops of
    [getFeedEvents] and [getTokenTransactions]) has one group per distinct
    transaction hash, in order of first occurrence; each group is non-empty
    and holds exactly the rows of its hash, in input order; so the groups
    together hold every input row exactly once. *)
Theorem groupByHash_partition (rows : list BlockscoutTransaction) :
  groupByHash rows = groupsOf rows /\
  List.NoDup (map fst (groupByHash rows)) /\
  (forall h g, In (h, g) (groupByHash rows) -> g <> [] /\ Forall (fun r => hash r = h) g) /\
  Permutation (concat (map snd (groupByHash rows))) rows.
Proof.
  split; [apply groupByHash_groupsOf|].
  split; [rewrite groupByHash_keys; apply firstSeen_NoDup|].
  split.
  - intros h g Hin. split; [exact (groupByHash_nonempty rows h g Hin)|].
    rewrite groupByHash_groupsOf in Hin. unfold groupsOf in Hin.
    apply in_map_iff in Hin as (h' & Heq & _). injection Heq as -> <-.
    apply List.Forall_forall. intros r Hr. apply filter_In in Hr as [_ Hr].
    apply String.eqb_eq, Hr.
  - rewrite groupByHash_groupsOf. unfold groupsOf. rewrite map_map. cbn [snd].
    apply concat_groups_perm; [apply firstSeen_NoDup|].
    intros r Hr. apply firstSeen_In, in_map, Hr.
Qed.

(** ** Collecting events *)

Lemma forEachPush_total {K V A} (f : K * V -> result (option A)) (g : A -> K)
    (m : list (K * V)) (out : list A) :
  (forall kv o, In kv m -> f kv = Ok o -> exists e, o = Some e /\ g e = fst kv) ->
  forEachPush f m = Ok out -> map g out = map fst m.
Proof.
  revert out. induction m as [|kv m IH]; intros out Hf H; simpl in H.
  - injection H as <-. reflexivity.
  - destruct (f kv) as [o|e] eqn:Ekv; simpl in H; [|discriminate].
    destruct (forEachPush f m) as [rest|e] eqn:Em; simpl in H; [|discriminate].
    injection H as <-.
    destruct (Hf kv o (or_introl eq_refl) Ekv) as (e & -> & He). simpl.
    rewrite He, (IH rest); [reflexivity| |reflexivity].
    intros kv' o' Hin. apply Hf. right. exact Hin.
Qed.

Lemma forEachPush_keys {K V A} (f : K * V -> result (option A)) (g : A -> K)
    (m : list (K * V)) (out : list A) :
  (forall kv e, f kv = Ok (Some e) -> g e = fst kv) ->
  forEachPush f m = Ok out ->
  (forall x, In x (map g out) -> In x (map fst m)) /\
  (List.NoDup (map fst m) -> List.NoDup (map g out)).
Proof.
  intros Hf. revert out. induction m as [|kv m IH]; intros out H; simpl in H.
  - injection H as <-. simpl. split; [tauto|intros _; constructor].
  - destruct (f kv) as [o|e] eqn:Ekv; simpl in H; [|discriminate].
    destruct (forEachPush f m) as [rest|e] eqn:Em; simpl in H; [|discriminate].
    injection H as <-. destruct (IH rest eq_refl) as [Hsub Hnd].
    destruct o as [e|]; simpl.
    + rewrite (Hf kv e Ekv). split.
      * intros x [<-|Hx]; [left; reflexivity|right; apply Hsub, Hx].
      * intros Hn. apply NoDup_cons_iff in Hn as [Hk Hn]. constructor.
        -- intros Hin. apply Hk, Hsub, Hin.
        -- apply Hnd, Hn.
    + split.
      * intros x Hx. right. apply Hsub, Hx.
      * intros Hn. apply NoDup_cons_iff in Hn as [_ Hn]. apply Hnd, Hn.
Qed.

Lemma forEachPush_err {K V A} (f : K * V -> result (option A)) (m : list (K * V)) (e : Error) :
  forEachPush f m = Err e -> exists kv, In kv m /\ f kv = Err e.
Proof.
  induction m as [|kv m IH]; intros H; simpl in H; [discriminate|].
  destruct (f kv) as [o|e'] eqn:Ekv; simpl in H.
  - destruct (forEachPush f m) as [rest|e'] eqn:Em; simpl in H; [discriminate|].
    injection H as ->. destruct (IH eq_refl) as (kv' & Hin & Hkv').
    exists kv'. split; [right; exact Hin|exact Hkv'].
  - injection H as ->. exists kv. split; [left; reflexivity|exact Ekv].
Qed.

Lemma feedEventOf_Some (this : BlockscoutAPI) (user : string)
    (kv : string * list BlockscoutTransaction) (o : option EventInterface) :
  feedEvent this user kv = Ok o -> exists e, o = Some e /\ ev_hash e = fst kv.
Proof.
  destruct kv as [h g].
  destruct (Nat.eq_dec (length g) 2%nat) as [H2|H2].
  - destruct g as [|t0 [|t1 [|t2 l]]]; simpl in H2; try lia.
    unfold feedEventOf, exchangeLegs.
    destruct (String.eqb (toLowerCase (from t0)) user); simpl;
    [destruct (getTokenAtAddress this (contractAddress t0)); simpl; [|discriminate];
     destruct (getTokenAtAddress this (contractAddress t1)); simpl; [|discriminate]
    |destruct (getTokenAtAddress this (contractAddress t1)); simpl; [|discriminate];
     destruct (getTokenAtAddress this (contractAddress t0)); simpl; [|discriminate]];
    intros H; injection H as <-; eexists; split; reflexivity.
  - intros H. destruct o as [e|]; [|exfalso; exact (feedEventOf_never_drops this user h g H2 H)].
    destruct (feedEventOf_not_pair this user h g e H2 H) as (t & rest & x & _ & -> & _ & _ & _ & Hh).
    exists (EvTransfer x). split; [reflexivity|exact Hh].
Qed.

(** ** X2 *)

(** Extra X2: when [getFeedEvents] succeeds it returns exactly one event
    per distinct transaction hash of the raw rows: the events' hashes are
    the distinct hashes, each once (in processing order before the sort). *)
Theorem getFeedEvents_one_per_hash (addresses : ContractAddresses) (this : BlockscoutAPI)
    (argsAddress : string) (raw : list BlockscoutTransaction) (out : list EventInterface) :
  snd (getFeedEvents FAUCET_ADDRESS VERIFICATION_REWARDS_ADDRESS formatCommentString
         addresses this argsAddress raw) = Ok out ->
  Permutation (map ev_hash out) (firstSeen (map hash raw)) /\
  List.NoDup (map ev_hash out) /\ length out = length (firstSeen (map hash raw)).
Proof.
  unfold getFeedEvents, getFeedEventsUnsorted.
  destruct (ensureTokenAddresses addresses this) as [this' calls].
  destruct (forEachPush (feedEvent this' (toLowerCase argsAddress)) (groupByHash raw))
    as [pre|e] eqn:E; simpl; [|discriminate].
  intros H. injection H as <-.
  assert (Hpre : map ev_hash pre = firstSeen (map hash raw)).
  { rewrite <- groupByHash_keys. apply (forEachPush_total _ _ _ _ (fun kv o _ Hkv =>
      feedEventOf_Some this' (toLowerCase argsAddress) kv o Hkv) E). }
  assert (Hp : Permutation (map ev_hash (jsSort byTimestampDesc pre)) (firstSeen (map hash raw))).
  { rewrite <- Hpre. apply Permutation_map. symmetry. apply jsSort_perm. }
  split; [exact Hp|]. split.
  - apply (Permutation_NoDup (Permutation_sym Hp)), firstSeen_NoDup.
  - rewrite <- (Permutation_length Hp), length_map. reflexivity.
Qed.

(** ** Rewards *)

Lemma feedRewardsLoop_Ok_iff (this : BlockscoutAPI) (raw : list BlockscoutTransaction) :
  (exists rs, rewardsLoop this raw = Ok rs) <->
  Forall (fun t => exists sym, getTokenAtAddress this (contractAddress t) = Ok sym)
    (List.filter (isRewardRow VERIFICATION_REWARDS_ADDRESS) raw).
Proof.
  induction raw as [|t raw IH]; simpl.
  - split; [constructor|]. intros _. eexists; reflexivity.
  - change (isRewardRow VERIFICATION_REWARDS_ADDRESS t)
      with (String.eqb (toLowerCase (from t)) VERIFICATION_REWARDS_ADDRESS).
    destruct (String.eqb (toLowerCase (from t)) VERIFICATION_REWARDS_ADDRESS); simpl; [|exact IH].
    rewrite Forall_cons_iff, <- IH.
    destruct (getTokenAtAddress this (contractAddress t)) as [sym|e]; simpl.
    + destruct (rewardsLoop this raw) as [rest|e]; simpl.
      * split; [intros _; split; eexists; reflexivity|]. intros _. eexists; reflexivity.
      * split; [intros (? & ?); discriminate|]. intros (_ & ? & ?); discriminate.
    + split; [intros (? & ?); discriminate|]. intros ((? & ?) & _); discriminate.
Qed.

(** ** X3 *)

(** Extra X3: when [getFeedRewards] succeeds, its rewards are, up to the
    timestamp sort, one per raw row whose lower-cased [from] is the rewards
    address, duplicates of a hash included: each is of type
    VERIFICATION_REWARD with address the rewards address, the row's hash,
    the row's token symbol, and as value [toNumber()] of the row's value
    divided by 10^18 (a quotient BigNumber computes exactly), within a
    relative [2^-53] of that quotient when finite. Rows from other senders
    are ignored. *)
Theorem getFeedRewards_rows (addresses : ContractAddresses) (this : BlockscoutAPI)
    (raw : list BlockscoutTransaction) (out : list TransferEvent) :
  snd (getFeedRewards VERIFICATION_REWARDS_ADDRESS formatCommentString addresses this raw) = Ok out ->
  let this' := fst (ensureTokenAddresses addresses this) in
  exists rs, Permutation rs out /\
  Forall2 (fun t r => tr_type r = VERIFICATION_REWARD /\ tr_address r = VERIFICATION_REWARDS_ADDRESS /\
             tr_hash r = hash t /\ getTokenAtAddress this' (contractAddress t) = Ok (tr_symbol r) /\
             weiToGold (value t) == inject_Z (bigNumber (value t)) / inject_Z (10 ^ 18) /\
             tr_value r = toNumber (weiToGold (value t)) /\
             (forall q, tr_value r = Finite q ->
                (Qabs (q - inject_Z (bigNumber (value t)) / inject_Z (10 ^ 18)) * inject_Z (2 ^ 53)
                 <= Qabs (inject_Z (bigNumber (value t)) / inject_Z (10 ^ 18)))%Q))
    (List.filter (isRewardRow VERIFICATION_REWARDS_ADDRESS) raw) rs.
Proof.
  unfold getFeedRewards. destruct (ensureTokenAddresses addresses this) as [this' calls]; simpl.
  destruct (rewardsLoop this' raw) as [rs|e] eqn:E; simpl; [|discriminate].
  intros H. injection H as <-. exists rs. split; [apply jsSort_perm|].
  eapply Forall2_impl; [exact (feedRewardsLoop_rows this' raw rs E)|].
  intros t r (H1 & H2 & H3 & H4 & H5 & _). repeat split; try assumption.
  - apply weiToGold_exact.
  - intros q Hq. apply weiToGold_rel_error. rewrite <- H5. exact Hq.
Qed.

(** ** X4 *)

(** Extra X4: [getFeedRewards] throws exactly when the token of some row
    sent by the rewards address is missing from the token address mapping
    (after [ensureTokenAddresses]); rows from other senders never make it
    throw. *)
Theorem getFeedRewards_throws_iff (addresses : ContractAddresses) (this : BlockscoutAPI)
    (raw : list BlockscoutTransaction) :
  let this' := fst (ensureTokenAddresses addresses this) in
  (exists out, snd (getFeedRewards VERIFICATION_REWARDS_ADDRESS formatCommentString
                      addresses this raw) = Ok out) <->
  Forall (fun t => exists sym, getTokenAtAddress this' (contractAddress t) = Ok sym)
    (List.filter (isRewardRow VERIFICATION_REWARDS_ADDRESS) raw).
Proof.
  unfold getFeedRewards. destruct (ensureTokenAddresses addresses this) as [this' calls]; simpl.
  rewrite <- feedRewardsLoop_Ok_iff.
  destruct (rewardsLoop this' raw) as [rs|e]; simpl.
  - split; intros _; eexists; reflexivity.
  - split; intros (? & ?); discriminate.
Qed.

(** ** Direction of transfers *)

Lemma resolve_direction (user to from att esc : string) (type : EventTypes) (address : string) :
  resolve user to from att esc = Ok (type, address) -> directionOk user to from type address.
Proof.
  unfold resolveTransferEventType.
  repeat match goal with
         | |- context [String.eqb ?a ?b] =>
             destruct (String.eqb_spec a b); subst; simpl
         end;
  intros H; try discriminate; injection H as <- <-; simpl; split; reflexivity.
Qed.

Lemma selectTokenTx_In_filter (this : BlockscoutAPI) (transactions : list BlockscoutTransaction)
    (event : BlockscoutTransaction) :
  selectTokenTx this transactions = Some event -> In event (stableTokenFilter this transactions).
Proof.
  intros H.
  assert (Hin : In event (jsSort byValueDesc (stableTokenFilter this transactions))).
  { unfold selectTokenTx in H.
    destruct (jsSort byValueDesc (stableTokenFilter this transactions))
      as [|s0 [|s1 [|s2 [|s3 l]]]]; try discriminate;
    repeat case_match; simplify_eq; simpl; tauto. }
  exact (Permutation_in event (Permutation_sym (jsSort_perm byValueDesc _)) Hin).
Qed.

Lemma signedWeiToGold_exact (s : string) (k : Z) :
  signedWeiToGold s k == inject_Z (bigNumber s * k) / inject_Z (10 ^ 18).
Proof. unfold signedWeiToGold. rewrite <- inject_Z_mult. apply bn_div_wei. Qed.

Lemma tokenEventOf_transfer (this : BlockscoutAPI) (user token h : string)
    (transactions : list BlockscoutTransaction) (x : TokenTransferEvent) :
  tokenEvent this user token (h, transactions) = Ok (Some (TokTransfer x)) ->
  exists event, selectTokenTx this transactions = Some event /\
    resolve user (toLowerCase (to event)) (toLowerCase (from event))
      (match getAttestationAddress this with Ok a => a | Err _ => "" end)
      (match getEscrowAddress this with Ok a => a | Err _ => "" end) = Ok (tt_type x, tt_address x) /\
    (exists a, getAttestationAddress this = Ok a) /\ (exists a, getEscrowAddress this = Ok a) /\
    currencyCode (tt_amount x) = tokenSymbol event /\
    am_value (tt_amount x) =
      signedWeiToGold (value event) (if String.eqb (toLowerCase (from event)) user then -1 else 1).
Proof.
  intros H.
  destruct (Nat.eq_dec (length transactions) 2%nat) as [H2|H2].
  - destruct transactions as [|t0 [|t1 [|t2 l]]]; simpl in H2; try lia.
    destruct (tokenEventOf_pair this user token h t0 t1 _ H) as (y & Hy & _). discriminate.
  - rewrite (tokenEventOf_not_pair_eq this user token h transactions H2) in H.
    destruct (selectTokenTx this transactions) as [event|]; [|discriminate].
    destruct (getAttestationAddress this) as [a|e]; simpl in H; [|discriminate].
    destruct (getEscrowAddress this) as [b|e]; simpl in H; [|discriminate].
    destruct (resolveTransferEventType _ _ _ _ _ _ _) as [[ty ad]|e] eqn:Er; simpl in H;
      [|discriminate].
    injection H as <-. exists event. simpl. repeat split; eauto.
Qed.

(** ** X5 *)

(** Extra X5: whatever type [resolveTransferEventType] returns, its
    counterparty address is the other side of the transfer: for the incoming
    types (RECEIVED, ESCROW_RECEIVED, FAUCET, VERIFICATION_REWARD) the
    receiver is the viewer and the address is the sender; for the outgoing
    types (SENT, ESCROW_SENT, VERIFICATION_FEE) the sender is the viewer and
    the address is the receiver; it never returns EXCHANGE. *)
Theorem resolveTransferEventType_counterparty (user to from att esc : string)
    (type : EventTypes) (address : string) :
  resolve user to from att esc = Ok (type, address) -> directionOk user to from type address.
Proof. apply resolve_direction. Qed.

(** ** X6 *)

(** Extra X6: a transfer event of [getTokenTransactions] is built from a row
    that passed the non-zero stable-token filter; its currency is that
    row's token symbol, its amount is the row's value divided by 10^18
    exactly, negated when the row's lower-cased sender is the viewer, and
    its type and address follow the direction of the row. *)
Theorem token_transfer_amount (this : BlockscoutAPI) (user token h : string)
    (transactions : list BlockscoutTransaction) (x : TokenTransferEvent) :
  tokenEvent this user token (h, transactions) = Ok (Some (TokTransfer x)) ->
  exists event, selectTokenTx this transactions = Some event /\
    In event (stableTokenFilter this transactions) /\
    currencyCode (tt_amount x) = tokenSymbol event /\
    am_value (tt_amount x) ==
      inject_Z (bigNumber (value event) *
                (if String.eqb (toLowerCase (from event)) user then -1 else 1)) /
      inject_Z (10 ^ 18) /\
    directionOk user (toLowerCase (to event)) (toLowerCase (from event)) (tt_type x) (tt_address x).
Proof.
  intros H.
  destruct (tokenEventOf_transfer this user token h transactions x H)
    as (event & Hsel & Hres & _ & _ & Hcur & Hval).
  exists event. split; [exact Hsel|]. split; [apply selectTokenTx_In_filter, Hsel|].
  split; [exact Hcur|]. split.
  - rewrite Hval. apply signedWeiToGold_exact.
  - eapply resolve_direction. exact Hres.
Qed.

(** ** X7 *)

(** Extra X7: a self-transfer of the stable token (a one-row group whose
    lower-cased sender and receiver are both the viewer, who is none of the
    faucet, rewards, attestations and escrow addresses) is reported by
    [getTokenTransactions] as RECEIVED from the viewer, yet with a negative
    amount: the sign follows the sender, the type the receiver. *)
Theorem token_self_transfer_received_negative (this : BlockscoutAPI) (user token h att esc : string)
    (t : BlockscoutTransaction) :
  stableTokenFilter this [t] = [t] ->
  toLowerCase (from t) = user -> toLowerCase (to t) = user ->
  user <> FAUCET_ADDRESS -> user <> VERIFICATION_REWARDS_ADDRESS ->
  getAttestationAddress this = Ok att -> att <> user ->
  getEscrowAddress this = Ok esc -> esc <> user ->
  exists x, tokenEvent this user token (h, [t]) = Ok (Some (TokTransfer x)) /\
    tt_type x = RECEIVED /\ tt_address x = user /\
    am_value (tt_amount x) == inject_Z (- bigNumber (value t)) / inject_Z (10 ^ 18).
Proof.
  intros Hf Hfrom Hto Hfa Hre Ha Hna He Hne.
  assert (Hs : selectTokenTx this [t] = Some t) by (unfold selectTokenTx; rewrite Hf; reflexivity).
  rewrite (tokenEventOf_not_pair_eq this user token h [t]) by (simpl; lia).
  rewrite Hs, Ha, He. simpl. rewrite Hfrom, Hto.
  unfold resolveTransferEventType. rewrite String.eqb_refl.
  destruct (String.eqb_spec user FAUCET_ADDRESS); [congruence|].
  destruct (String.eqb_spec user att); [congruence|].
  destruct (String.eqb_spec user VERIFICATION_REWARDS_ADDRESS); [congruence|].
  destruct (String.eqb_spec user esc); [congruence|]. simpl.
  eexists. split; [reflexivity|]. simpl. split; [reflexivity|]. split; [reflexivity|].
  rewrite signedWeiToGold_exact. replace (- bigNumber (value t)) with (bigNumber (value t) * -1)
    by lia. reflexivity.
Qed.

(** ** X8 *)

(** Extra X8: in [getTokenTransactions] a two-row group never throws (no
    registry lookup is made): it emits nothing exactly when neither row's
    token symbol is the requested token; otherwise it emits an EXCHANGE whose
    amount is in the requested token: minus the in leg's value over 10^18
    when the in leg holds the token (checked first), else plus the out
    leg's value over 10^18. *)
Theorem token_exchange_pair (this : BlockscoutAPI) (user token h : string)
    (t0 t1 : BlockscoutTransaction) :
  let inLeg := if String.eqb (toLowerCase (from t0)) user then t0 else t1 in
  let outLeg := if String.eqb (toLowerCase (from t0)) user then t1 else t0 in
  (forall err, tokenEvent this user token (h, [t0; t1]) <> Err err) /\
  (tokenEvent this user token (h, [t0; t1]) = Ok None <->
   tokenSymbol t0 <> token /\ tokenSymbol t1 <> token) /\
  (forall e, tokenEvent this user token (h, [t0; t1]) = Ok (Some e) ->
   exists x, e = TokExchange x /\ te_hash x = h /\ currencyCode (te_amount x) = token /\
     am_value (te_amount x) ==
       inject_Z (if String.eqb (tokenSymbol inLeg) token then - bigNumber (value inLeg)
                 else bigNumber (value outLeg)) / inject_Z (10 ^ 18)).
Proof.
  cbv zeta. unfold tokenEventOf, exchangeLegs.
  assert (Hneg : forall v, signedWeiToGold v (-1) == inject_Z (- bigNumber v) / inject_Z (10 ^ 18)).
  { intros v. rewrite signedWeiToGold_exact. rewrite Z.mul_comm. reflexivity. }
  assert (Hpos : forall v, signedWeiToGold v 1 == inject_Z (bigNumber v) / inject_Z (10 ^ 18)).
  { intros v. rewrite signedWeiToGold_exact, Z.mul_1_r. reflexivity. }
  destruct (String.eqb (toLowerCase (from t0)) user);
  destruct (String.eqb_spec (tokenSymbol t0) token) as [E0|E0];
  destruct (String.eqb_spec (tokenSymbol t1) token) as [E1|E1]; simpl;
  (split; [intros err; discriminate|]);
  (split; [split; [intros H; try discriminate; split; assumption|intros [? ?]; try congruence;
                   reflexivity]|]);
  intros e H; try discriminate; injection H as <-; eexists; (split; [reflexivity|]);
  (split; [reflexivity|]); simpl; (split; [assumption|]); auto.
Qed.

(** ** Token feed output *)

Lemma tokenEventOf_Some_hash (this : BlockscoutAPI) (user token : string)
    (kv : string * list BlockscoutTransaction) (e : TokenEvent) :
  tokenEvent this user token kv = Ok (Some e) -> tok_hash e = fst kv.
Proof.
  destruct kv as [h g]. intros H.
  destruct (Nat.eq_dec (length g) 2%nat) as [H2|H2].
  - destruct g as [|t0 [|t1 [|t2 l]]]; simpl in H2; try lia.
    unfold tokenEventOf, exchangeLegs in H.
    destruct (String.eqb (toLowerCase (from t0)) user);
    destruct (String.eqb (tokenSymbol t0) token);
    destruct (String.eqb (tokenSymbol t1) token); simpl in H;
    try discriminate; injection H as <-; reflexivity.
  - rewrite (tokenEventOf_not_pair_eq this user token h g H2) in H.
    destruct (selectTokenTx this g) as [event|]; [|discriminate].
    destruct (getAttestationAddress this) as [a|e']; simpl in H; [|discriminate].
    destruct (getEscrowAddress this) as [b|e']; simpl in H; [|discriminate].
    destruct (resolveTransferEventType _ _ _ _ _ _ _) as [[ty ad]|e'] eqn:Er; simpl in H;
      [|discriminate].
    injection H as <-. reflexivity.
Qed.

Lemma NoDup_map_filter {A B} (g : A -> B) (p : A -> bool) (l : list A) :
  List.NoDup (map g l) -> List.NoDup (map g (List.filter p l)).
Proof.
  induction l as [|x l IH]; intros Hnd; simpl; [constructor|].
  apply NoDup_cons_iff in Hnd as [Hx Hnd].
  destruct (p x); simpl; [|apply IH, Hnd].
  constructor; [|apply IH, Hnd].
  intros Hin. apply Hx. apply in_map_iff in Hin as (y & <- & Hy).
  apply filter_In in Hy as [Hy _]. apply in_map, Hy.
Qed.

(** ** X9 *)

(** Extra X9: every event [getTokenTransactions] returns is in the requested
    token (its amount's currency code is the token), and no two events share
    a transaction hash: a transaction yields at most one event, and only for
    a hash of the raw rows. *)
Theorem token_feed_output (addresses : ContractAddresses) (this : BlockscoutAPI)
    (argsAddress token : string) (raw : list BlockscoutTransaction) (out : list TokenEvent) :
  snd (getTokenTransactions FAUCET_ADDRESS VERIFICATION_REWARDS_ADDRESS formatCommentString
         addresses this argsAddress token raw) = Ok out ->
  Forall (fun e => currencyCode (tok_amount e) = token) out /\
  List.NoDup (map tok_hash out) /\
  (forall e, In e out -> In (tok_hash e) (map hash raw)).
Proof.
  unfold getTokenTransactions, getTokenTransactionsUnsorted.
  destruct (ensureTokenAddresses addresses this) as [this' calls].
  destruct (forEachPush (tokenEvent this' (toLowerCase argsAddress) token) (groupByHash raw))
    as [pre|err] eqn:E; simpl; [|discriminate].
  intros H. injection H as <-.
  set (kept := List.filter (fun e => String.eqb (currencyCode (tok_amount e)) token) pre).
  destruct (forEachPush_keys _ tok_hash _ _
              (fun kv e He => tokenEventOf_Some_hash this' (toLowerCase argsAddress) token kv e He) E)
    as [Hsub Hnd].
  rewrite groupByHash_keys in Hsub, Hnd.
  pose proof (jsSort_perm tokenByTimestampDesc kept) as Hp.
  split; [|split].
  - apply List.Forall_forall. intros e He.
    apply (Permutation_in e (Permutation_sym Hp)) in He.
    subst kept. apply filter_In in He as [_ He]. apply String.eqb_eq, He.
  - apply (Permutation_NoDup (Permutation_map tok_hash Hp)).
    subst kept. apply NoDup_map_filter, Hnd, firstSeen_NoDup.
  - intros e He. apply (Permutation_in e (Permutation_sym Hp)) in He.
    subst kept. apply filter_In in He as [He _].
    apply firstSeen_In, Hsub, in_map, He.
Qed.

(** ** Errors of the feeds *)

Lemma ensureTokenAddresses_ready (addresses : ContractAddresses) (this : BlockscoutAPI) :
  ca_attestationsAddress addresses <> "" -> ca_escrowAddress addresses <> "" ->
  registryReady (fst (ensureTokenAddresses addresses this)).
Proof.
  intros Ha He. unfold ensureTokenAddresses.
  destruct (bool_decide (is_Some (tokenAddressMapping this)) && truthy (attestationsAddress this)
            && truthy (escrowAddress this) && truthy (goldTokenAddress this)
            && truthy (stableTokenAddress this)) eqn:C; cbn [fst].
  - apply andb_prop in C as [C _]. apply andb_prop in C as [C _].
    apply andb_prop in C as [C Cesc]. apply andb_prop in C as [Cm Catt].
    apply bool_decide_eq_true in Cm as [m Hm].
    split; [exists m; exact Hm|]. unfold getAttestationAddress, getEscrowAddress.
    destruct (attestationsAddress this) as [a|]; [|discriminate].
    destruct (escrowAddress this) as [b|]; [|discriminate].
    rewrite Catt, Cesc. split; eexists; reflexivity.
  - split; [eexists; reflexivity|]. unfold getAttestationAddress, getEscrowAddress; cbn.
    destruct (String.eqb_spec (ca_attestationsAddress addresses) ""); [contradiction|].
    destruct (String.eqb_spec (ca_escrowAddress addresses) ""); [contradiction|].
    split; eexists; reflexivity.
Qed.

Lemma getTokenAtAddress_Err (this : BlockscoutAPI) (a : string) (e : Error) :
  registryReady this -> getTokenAtAddress this a = Err e -> exists k, e = NoTokenCorresponding k.
Proof.
  intros [[m Hm] _] H. unfold getTokenAtAddress in H. rewrite Hm in H.
  destruct (m !! toLowerCase a); [discriminate|]. injection H as <-. eexists; reflexivity.
Qed.

Lemma resolve_Err (user to from att esc : string) (e : Error) :
  resolve user to from att esc = Err e -> e = NoValidEventType.
Proof.
  unfold resolveTransferEventType.
  repeat match goal with
         | |- context [String.eqb ?a ?b] => destruct (String.eqb a b); simpl
         end;
  intros H; try discriminate; injection H as <-; reflexivity.
Qed.

Lemma feedEventOf_Err (this : BlockscoutAPI) (user h : string) (g : list BlockscoutTransaction)
    (e : Error) :
  registryReady this -> g <> [] -> feedEvent this user (h, g) = Err e ->
  (exists k, e = NoTokenCorresponding k) \/ e = NoValidEventType.
Proof.
  intros Hr Hne H. pose proof Hr as (_ & [a Ha] & [b Hb]).
  destruct (Nat.eq_dec (length g) 2%nat) as [H2|H2].
  - destruct g as [|t0 [|t1 [|t2 l]]]; simpl in H2; try lia.
    unfold feedEventOf, exchangeLegs in H.
    destruct (String.eqb (toLowerCase (from t0)) user); simpl in H;
    [destruct (getTokenAtAddress this (contractAddress t0)) eqn:E0; simpl in H;
     [destruct (getTokenAtAddress this (contractAddress t1)) eqn:E1; simpl in H; [discriminate|]|]
    |destruct (getTokenAtAddress this (contractAddress t1)) eqn:E0; simpl in H;
     [destruct (getTokenAtAddress this (contractAddress t0)) eqn:E1; simpl in H; [discriminate|]|]];
    injection H as ->; left; eapply getTokenAtAddress_Err; eauto.
  - destruct g as [|t0 rest]; [contradiction|].
    assert (Hev : feedEvent this user (h, t0 :: rest) =
      (attestations ← getAttestationAddress this;
       escrow ← getEscrowAddress this;
       '(type, address) ← resolve user (toLowerCase (to t0)) (toLowerCase (from t0))
                             attestations escrow;
       symbol ← getTokenAtAddress this (contractAddress t0);
       Ok (Some (EvTransfer {|
         tr_type := type; tr_timestamp := bigNumber (timeStamp t0);
         tr_block := bigNumber (blockNumber t0); tr_value := toNumber (weiToGold (value t0));
         tr_address := address;
         tr_comment := if strTruthy (input t0) then formatCommentString (input t0) else "";
         tr_symbol := if strTruthy symbol then symbol else "unknown"; tr_hash := h |})))).
    { destruct rest as [|t1 [|t2 l]]; simpl in H2; try lia; reflexivity. }
    rewrite Hev, Ha, Hb in H. simpl in H.
    destruct (resolveTransferEventType _ _ _ _ _ _ _) as [[ty ad]|e'] eqn:Er; simpl in H.
    + destruct (getTokenAtAddress this (contractAddress t0)) eqn:Es; simpl in H; [discriminate|].
      injection H as ->. left. eapply getTokenAtAddress_Err; eauto.
    + injection H as ->. right. eapply resolve_Err. exact Er.
Qed.

Lemma tokenEventOf_Err (this : BlockscoutAPI) (user token h : string)
    (g : list BlockscoutTransaction) (e : Error) :
  registryReady this -> tokenEvent this user token (h, g) = Err e -> e = NoValidEventType.
Proof.
  intros (_ & [a Ha] & [b Hb]) H.
  destruct (Nat.eq_dec (length g) 2%nat) as [H2|H2].
  - destruct g as [|t0 [|t1 [|t2 l]]]; simpl in H2; try lia.
    unfold tokenEventOf, exchangeLegs in H.
    destruct (String.eqb (toLowerCase (from t0)) user);
    destruct (String.eqb (tokenSymbol t0) token);
    destruct (String.eqb (tokenSymbol t1) token); simpl in H; discriminate.
  - rewrite (tokenEventOf_not_pair_eq this user token h g H2) in H.
    destruct (selectTokenTx this g) as [event|]; [|discriminate].
    rewrite Ha, Hb in H. simpl in H.
    destruct (resolveTransferEventType _ _ _ _ _ _ _) as [[ty ad]|e'] eqn:Er; simpl in H;
      [discriminate|].
    injection H as ->. eapply resolve_Err. exact Er.
Qed.

Lemma feedRewardsLoop_Err (this : BlockscoutAPI) (raw : list BlockscoutTransaction) (e : Error) :
  registryReady this -> rewardsLoop this raw = Err e -> exists k, e = NoTokenCorresponding k.
Proof.
  intros Hr. induction raw as [|t raw IH]; intros H; simpl in H; [discriminate|].
  destruct (negb _); [apply IH, H|].
  destruct (getTokenAtAddress this (contractAddress t)) eqn:Es; simpl in H.
  - destruct (rewardsLoop this raw) eqn:Er; simpl in H; [discriminate|].
    injection H as ->. apply IH. reflexivity.
  - injection H as ->. eapply getTokenAtAddress_Err; eauto.
Qed.

(** ** X10 *)

(** Extra X10: when the contract-address resolution gives non-empty
    attestations and escrow addresses, the feeds never throw the
    missing-registry errors ("Cannot find ...") nor a TypeError on an empty
    group: [getFeedEvents] can only throw for an unknown token address or a
    row not involving the viewer, [getTokenTransactions] only for the
    latter, and [getFeedRewards] only for the former. *)
Theorem feeds_error_kinds (addresses : ContractAddresses) (this : BlockscoutAPI)
    (argsAddress token : string) (raw : list BlockscoutTransaction) (e : Error) :
  ca_attestationsAddress addresses <> "" -> ca_escrowAddress addresses <> "" ->
  (snd (getFeedEvents FAUCET_ADDRESS VERIFICATION_REWARDS_ADDRESS formatCommentString
          addresses this argsAddress raw) = Err e ->
   (exists k, e = NoTokenCorresponding k) \/ e = NoValidEventType) /\
  (snd (getTokenTransactions FAUCET_ADDRESS VERIFICATION_REWARDS_ADDRESS formatCommentString
          addresses this argsAddress token raw) = Err e -> e = NoValidEventType) /\
  (snd (getFeedRewards VERIFICATION_REWARDS_ADDRESS formatCommentString addresses this raw) = Err e ->
   exists k, e = NoTokenCorresponding k).
Proof.
  intros Ha He.
  pose proof (ensureTokenAddresses_ready addresses this Ha He) as Hr.
  unfold getFeedEvents, getFeedEventsUnsorted, getTokenTransactions,
    getTokenTransactionsUnsorted, getFeedRewards.
  destruct (ensureTokenAddresses addresses this) as [this' calls]. cbn [fst] in Hr.
  split; [|split].
  - destruct (forEachPush (feedEvent this' (toLowerCase argsAddress)) (groupByHash raw))
      as [pre|err] eqn:E; simpl; intros H; [discriminate|]. injection H as ->.
    destruct (forEachPush_err _ _ _ E) as ([h g] & Hin & Hg).
    eapply feedEventOf_Err; [exact Hr| |exact Hg].
    exact (groupByHash_nonempty raw h g Hin).
  - destruct (forEachPush (tokenEvent this' (toLowerCase argsAddress) token) (groupByHash raw))
      as [pre|err] eqn:E; simpl; intros H; [discriminate|]. injection H as ->.
    destruct (forEachPush_err _ _ _ E) as ([h g] & Hin & Hg).
    eapply tokenEventOf_Err; [exact Hr|exact Hg].
  - destruct (rewardsLoop this' raw) as [rs|err] eqn:E; simpl; intros H; [discriminate|].
    injection H as ->. eapply feedRewardsLoop_Err; [exact Hr|exact E].
Qed.

(** ** Transfers and exchanges of the general feed *)

Lemma feedEventOf_cons_eq (this : BlockscoutAPI) (user h : string) (t0 : BlockscoutTransaction)
    (rest : list BlockscoutTransaction) :
  length (t0 :: rest) <> 2%nat ->
  feedEvent this user (h, t0 :: rest) =
    (attestations ← getAttestationAddress this;
     escrow ← getEscrowAddress this;
     '(type, address) ← resolve user (toLowerCase (to t0)) (toLowerCase (from t0))
                           attestations escrow;
     symbol ← getTokenAtAddress this (contractAddress t0);
     Ok (Some (EvTransfer {|
       tr_type := type; tr_timestamp := bigNumber (timeStamp t0);
       tr_block := bigNumber (blockNumber t0); tr_value := toNumber (weiToGold (value t0));
       tr_address := address;
       tr_comment := if strTruthy (input t0) then formatCommentString (input t0) else "";
       tr_symbol := if strTruthy symbol then symbol else "unknown"; tr_hash := h |}))).
Proof. intros H2. destruct rest as [|t1 [|t2 l]]; simpl in H2; try lia; reflexivity. Qed.

(** ** X11 *)

(** Extra X11: in [getFeedEvents] a two-row group is never skipped and
    never consults the attestations or escrow address: it yields an event
    exactly when both rows' token addresses are in the token address
    mapping, and throws otherwise. *)
Theorem feed_exchange_lookups (this : BlockscoutAPI) (user h : string)
    (t0 t1 : BlockscoutTransaction) :
  feedEvent this user (h, [t0; t1]) <> Ok None /\
  ((exists e, feedEvent this user (h, [t0; t1]) = Ok (Some e)) <->
   (exists s0, getTokenAtAddress this (contractAddress t0) = Ok s0) /\
   (exists s1, getTokenAtAddress this (contractAddress t1) = Ok s1)) /\
  (forall m, feedEvent (withMapping this m) user (h, [t0; t1]) =
             feedEvent {| tokenAddressMapping := m; attestationsAddress := None;
                          escrowAddress := None; goldTokenAddress := None;
                          stableTokenAddress := None |} user (h, [t0; t1])).
Proof.
  split; [|split].
  - unfold feedEventOf, exchangeLegs.
    destruct (String.eqb (toLowerCase (from t0)) user); simpl;
    destruct (getTokenAtAddress this (contractAddress t0));
    destruct (getTokenAtAddress this (contractAddress t1)); simpl; discriminate.
  - unfold feedEventOf, exchangeLegs.
    destruct (String.eqb (toLowerCase (from t0)) user); simpl;
    destruct (getTokenAtAddress this (contractAddress t0)) as [s0|e0];
    destruct (getTokenAtAddress this (contractAddress t1)) as [s1|e1]; simpl;
    (split; [intros [e He]; try discriminate; split; eexists; reflexivity
            |intros [[? ?] [? ?]]; try discriminate; eexists; reflexivity]).
  - intros m. reflexivity.
Qed.

(** ** X12 *)

(** Extra X12: a transfer event of [getFeedEvents] comes from a group whose
    size is not 2 and is built from its first row alone: its value is
    [toNumber()] of that row's value over 10^18 (a quotient BigNumber
    computes exactly), unsigned whatever the direction; its
    type and address follow the direction of that row; its symbol is the
    mapped symbol of the row's token address, or 'unknown' when that symbol
    is the empty string. *)
Theorem feed_transfer_first_row (this : BlockscoutAPI) (user h : string)
    (transactions : list BlockscoutTransaction) (x : TransferEvent) :
  feedEvent this user (h, transactions) = Ok (Some (EvTransfer x)) ->
  exists t rest, transactions = t :: rest /\ length transactions <> 2%nat /\
    weiToGold (value t) == inject_Z (bigNumber (value t)) / inject_Z (10 ^ 18) /\
    tr_value x = toNumber (weiToGold (value t)) /\
    directionOk user (toLowerCase (to t)) (toLowerCase (from t)) (tr_type x) (tr_address x) /\
    exists sym, getTokenAtAddress this (contractAddress t) = Ok sym /\
      tr_symbol x = (if String.eqb sym "" then "unknown" else sym).
Proof.
  intros H.
  destruct (Nat.eq_dec (length transactions) 2%nat) as [H2|H2].
  - destruct transactions as [|t0 [|t1 [|t2 l]]]; simpl in H2; try lia.
    destruct (feedEventOf_pair this user h t0 t1 _ H) as (y & Hy & _). discriminate.
  - destruct transactions as [|t rest]; [discriminate|].
    rewrite (feedEventOf_cons_eq this user h t rest H2) in H.
    destruct (getAttestationAddress this) as [a|e]; simpl in H; [|discriminate].
    destruct (getEscrowAddress this) as [b|e]; simpl in H; [|discriminate].
    destruct (resolveTransferEventType _ _ _ _ _ _ _) as [[ty ad]|e] eqn:Er; simpl in H;
      [|discriminate].
    destruct (getTokenAtAddress this (contractAddress t)) as [sym|e] eqn:Es; simpl in H;
      [|discriminate].
    injection H as <-. exists t, rest. split; [reflexivity|]. split; [exact H2|].
    split; [apply weiToGold_exact|]. split; [reflexivity|].
    split; [eapply resolve_direction; exact Er|].
    exists sym. split; [exact Es|]. simpl. unfold strTruthy.
    destruct (String.eqb sym ""); reflexivity.
Qed.

(** ** Token feed and the token address mapping *)

Lemma forEachPush_ext {K V A} (f g : K * V -> result (option A)) (m : list (K * V)) :
  (forall kv, f kv = g kv) -> forEachPush f m = forEachPush g m.
Proof. intros H. induction m as [|kv m IH]; simpl; [reflexivity|]. rewrite H, IH. reflexivity. Qed.

Lemma tokenEventOf_withMapping (this : BlockscoutAPI) (m : option (gmap string string))
    (user token : string) (kv : string * list BlockscoutTransaction) :
  tokenEvent (withMapping this m) user token kv = tokenEvent this user token kv.
Proof. destruct this. reflexivity. Qed.

Lemma ensureTokenAddresses_withMapping (addresses : ContractAddresses) (this : BlockscoutAPI)
    (m : gmap string string) :
  ensureTokenAddresses addresses (withMapping this (Some m)) =
  if truthy (attestationsAddress this) && truthy (escrowAddress this)
     && truthy (goldTokenAddress this) && truthy (stableTokenAddress this)
  then (withMapping this (Some m), [])
  else ({| attestationsAddress := Some (ca_attestationsAddress addresses);
           tokenAddressMapping := Some (ca_tokenAddressMapping addresses);
           escrowAddress := Some (ca_escrowAddress addresses);
           goldTokenAddress := Some (ca_goldTokenAddress addresses);
           stableTokenAddress := Some (ca_stableTokenAddress addresses) |},
        [GetContractAddresses]).
Proof.
  unfold ensureTokenAddresses.
  assert (Hb : bool_decide (is_Some (tokenAddressMapping (withMapping this (Some m)))) = true)
    by (apply bool_decide_eq_true; eexists; reflexivity).
  rewrite Hb. reflexivity.
Qed.

(** ** X13 *)

(** Extra X13: [getTokenTransactions] never reads the token address
    mapping: once a mapping is present, its content does not change the
    events returned or the error thrown. *)
Theorem token_feed_ignores_mapping (addresses : ContractAddresses) (this : BlockscoutAPI)
    (argsAddress token : string) (raw : list BlockscoutTransaction) (m1 m2 : gmap string string) :
  snd (getTokenTransactions FAUCET_ADDRESS VERIFICATION_REWARDS_ADDRESS formatCommentString
         addresses (withMapping this (Some m1)) argsAddress token raw) =
  snd (getTokenTransactions FAUCET_ADDRESS VERIFICATION_REWARDS_ADDRESS formatCommentString
         addresses (withMapping this (Some m2)) argsAddress token raw).
Proof.
  unfold getTokenTransactions, getTokenTransactionsUnsorted.
  rewrite !ensureTokenAddresses_withMapping.
  destruct (truthy (attestationsAddress this) && truthy (escrowAddress this)
            && truthy (goldTokenAddress this) && truthy (stableTokenAddress this));
    cbv beta iota zeta delta [snd]; [|reflexivity].
  assert (Hf : forall m, forEachPush (tokenEvent (withMapping this (Some m)) (toLowerCase argsAddress) token)
                            (groupByHash raw) =
                          forEachPush (tokenEvent this (toLowerCase argsAddress) token) (groupByHash raw))
    by (intros m; apply forEachPush_ext; intros kv; apply tokenEventOf_withMapping).
  rewrite !Hf. reflexivity.
Qed.

(** ** First error of a feed *)

Lemma forEachPush_Err_iff {K V A} (f : K * V -> result (option A)) (m : list (K * V)) (e : Error) :
  forEachPush f m = Err e <->
  exists pre kv post, m = pre ++ kv :: post /\
    Forall (fun kv' => exists o, f kv' = Ok o) pre /\ f kv = Err e.
Proof.
  induction m as [|kv m IH]; simpl.
  - split; [discriminate|]. intros (pre & kv & post & Hm & _). destruct pre; discriminate.
  - destruct (f kv) as [o|e'] eqn:Ekv; simpl.
    + transitivity (forEachPush f m = Err e).
      { destruct (forEachPush f m); simpl; split; intros H; congruence. }
      rewrite IH. split.
      * intros (pre & kv' & post & Hm & Hpre & Hk). exists (kv :: pre), kv', post.
        split; [subst m; reflexivity|].
        split; [constructor; [exists o; exact Ekv|exact Hpre]|exact Hk].
      * intros (pre & kv' & post & Hm & Hpre & Hk).
        destruct pre as [|p pre]; simpl in Hm; injection Hm as -> Hm; [congruence|].
        exists pre, kv', post. split; [exact Hm|].
        split; [inversion Hpre; assumption|exact Hk].
    + split.
      * intros H. injection H as ->. exists [], kv, m. split; [reflexivity|].
        split; [constructor|exact Ekv].
      * intros (pre & kv' & post & Hm & Hpre & Hkv').
        destruct pre as [|p pre]; simpl in Hm; injection Hm as -> Hm; [congruence|].
        inversion Hpre as [|? ? [o Ho] _]. congruence.
Qed.

(** ** X15 *)

(** Extra X15: a throw in a [forEach] callback aborts the iteration:
    [getFeedEvents] and [getTokenTransactions] throw exactly the error of
    the first group, in order of first occurrence of the hashes, whose
    callback throws, every earlier group having been processed without
    error. *)
Theorem feeds_first_error (addresses : ContractAddresses) (this : BlockscoutAPI)
    (argsAddress token : string) (raw : list BlockscoutTransaction) (e : Error) :
  let this' := fst (ensureTokenAddresses addresses this) in
  let user := toLowerCase argsAddress in
  (snd (getFeedEvents FAUCET_ADDRESS VERIFICATION_REWARDS_ADDRESS formatCommentString
          addresses this argsAddress raw) = Err e <->
   exists pre kv post, groupByHash raw = pre ++ kv :: post /\
     Forall (fun kv' => exists o, feedEvent this' user kv' = Ok o) pre /\
     feedEvent this' user kv = Err e) /\
  (snd (getTokenTransactions FAUCET_ADDRESS VERIFICATION_REWARDS_ADDRESS formatCommentString
          addresses this argsAddress token raw) = Err e <->
   exists pre kv post, groupByHash raw = pre ++ kv :: post /\
     Forall (fun kv' => exists o, tokenEvent this' user token kv' = Ok o) pre /\
     tokenEvent this' user token kv = Err e).
Proof.
  unfold getFeedEvents, getFeedEventsUnsorted, getTokenTransactions, getTokenTransactionsUnsorted.
  destruct (ensureTokenAddresses addresses this) as [this' calls]. cbn [fst]. split.
  - rewrite <- forEachPush_Err_iff.
    destruct (forEachPush (feedEvent this' (toLowerCase argsAddress)) (groupByHash raw));
      simpl; split; intros H; congruence.
  - rewrite <- forEachPush_Err_iff.
    destruct (forEachPush (tokenEvent this' (toLowerCase argsAddress) token) (groupByHash raw));
      simpl; split; intros H; congruence.
Qed.

End Proofs.

(** * Concrete instances *)

Lemma exchange_in_leg_choice_witness :
  exists ev tev,
    feedEventOf "0xfaucet" "0xrewards" (fun c => c) sampleAPI "0xaaa"
      ("0xh", [exchangeOut; exchangeBack]) = Ok (Some ev) /\
    tokenEventOf "0xfaucet" "0xrewards" (fun c => c) sampleAPI "0xaaa" "cUSD"
      ("0xh", [exchangeOut; exchangeBack]) = Ok (Some tev) /\
    (exists x, ev = EvExchange x /\ ex_inSymbol x = "cUSD") /\
    (exists y, tev = TokExchange y /\ currencyCode (te_makerAmount y) = "cUSD").
Proof.
  eexists; eexists; split; [reflexivity|]; split; [reflexivity|].
  match goal with
  | |- (exists x, ?e = _ /\ _) /\ (exists y, ?te = _ /\ _) =>
      destruct (exchange_in_leg_choice "0xfaucet" "0xrewards" (fun c => c) sampleAPI "0xaaa"
                  "cUSD" "0xh" exchangeOut exchangeBack e te) as [H1 H2]
  end.
  destruct (H1 eq_refl) as (x & Hx & Hi & _).
  destruct (H2 eq_refl) as (y & Hy & Hm & _).
  split.
  - exists x. split; [exact Hx|]. cbn in Hi. injection Hi as <-. reflexivity.
  - exists y. split; [exact Hy|]. exact Hm.
Defined.

(** Neither row is sent by the viewer: the in leg is the second row. *)
Lemma exchange_in_leg_neither_cex :
  let t0 := sampleRow "0xh" "0xbbb" "0xaaa" "0xcusd" "5" "cUSD" in
  let t1 := sampleRow "0xh" "0xccc" "0xaaa" "0xgold" "7" "cGLD" in
  toLowerCase (from t0) <> "0xaaa" /\ toLowerCase (from t1) <> "0xaaa" /\
  match feedEventOf "0xfaucet" "0xrewards" (fun c => c) sampleAPI "0xaaa" ("0xh", [t0; t1]) with
  | Ok (Some (EvExchange x)) =>
      ex_inSymbol x = "cGLD" /\ ex_inValue x = toNumber (weiToGold "7") /\ ex_outSymbol x = "cUSD"
  | _ => False
  end.
Proof.
  vm_compute. split; [discriminate|]. split; [discriminate|]. repeat split.
Qed.

Lemma exchange_values_rounded_witness :
  exists ev,
    feedEventOf "0xfaucet" "0xrewards" (fun c => c) sampleAPI "0xaaa"
      ("0xh", [exchangeOut; exchangeBack]) = Ok (Some ev) /\
    exists x, ev = EvExchange x /\ ex_inValue x = Finite 5 /\ ex_outValue x = Finite 2.
Proof.
  eexists; split; [reflexivity|].
  match goal with
  | |- exists x, ?e = _ /\ _ =>
      destruct (exchange_values_rounded "0xfaucet" "0xrewards" (fun c => c) sampleAPI "0xaaa"
                  "0xh" exchangeOut exchangeBack e eq_refl)
        as (x & Hx & _ & _ & Hi & _ & _ & Ho & _)
  end.
  exists x. split; [exact Hx|]. rewrite Hi, Ho. split; vm_compute; reflexivity.
Defined.

(** An in leg of [1000000000000000001] wei is reported as exactly [1]: the
    quotient [1.000000000000000001] has no double of its own. *)
Lemma exchange_values_rounding_cex :
  let t0 := sampleRow "0xh" "0xAAA" "0xccc" "0xcusd" "1000000000000000001" "cUSD" in
  match feedEventOf "0xfaucet" "0xrewards" (fun c => c) sampleAPI "0xaaa"
          ("0xh", [t0; exchangeBack]) with
  | Ok (Some (EvExchange x)) =>
      ex_inValue x = Finite 1 /\
      ~ (1 == inject_Z (bigNumber (value t0)) / inject_Z (10 ^ 18))%Q
  | _ => False
  end.
Proof.
  vm_compute. split; [reflexivity|discriminate].
Qed.

Lemma selectTokenTx_fee_triple_witness :
  length (stableTokenFilter sampleAPI [feeTransfer; feeLegValidator; feeLegCommunity]) = 3%nat /\
  selectTokenTx sampleAPI [feeTransfer; feeLegValidator; feeLegCommunity] = Some feeTransfer.
Proof.
  split; [vm_compute; reflexivity|].
  destruct (selectTokenTx_fee_triple sampleAPI [feeTransfer; feeLegValidator; feeLegCommunity]
              ltac:(vm_compute; reflexivity)) as (s0 & s1 & s2 & Hsort & _ & _ & Hsel & _).
  vm_compute in Hsort. injection Hsort as <- <- <-. rewrite Hsel. vm_compute. reflexivity.
Defined.

(** Three equal cUSD rows of 5 with gas cost 10: the pair of the second and
    third rows sums to the gas cost, yet the third row, not the first, is
    selected. *)
Lemma fee_triple_two_pairs_cex :
  let a := sampleRow "0xt" "0xaaa" "0xa1" "0xcusd" "5" "cUSD" in
  let b := sampleRow "0xt" "0xaaa" "0xa2" "0xcusd" "5" "cUSD" in
  let c := sampleRow "0xt" "0xaaa" "0xa3" "0xcusd" "5" "cUSD" in
  stableTokenFilter sampleAPI [a; b; c] = [a; b; c] /\
  bigNumber (value b) + bigNumber (value c) = bigNumber (gasUsed a) * bigNumber (gasPrice a) /\
  selectTokenTx sampleAPI [a; b; c] = Some c /\ c <> a.
Proof.
  intros a b c. split; [vm_compute; reflexivity|]. split; [vm_compute; reflexivity|].
  split; [vm_compute; reflexivity|]. subst a c. discriminate.
Qed.

Lemma groups_not_two_rows_witness :
  length [goldRow] <> 2%nat /\
  feedEventOf "0xfaucet" "0xrewards" (fun c => c) sampleAPI "0xaaa" ("0xg", [goldRow]) <> Ok None.
Proof.
  split; [simpl; lia|].
  exact (proj1 (groups_not_two_rows "0xfaucet" "0xrewards" (fun c => c) sampleAPI "0xaaa" "cGLD"
                  "0xg" [goldRow] ltac:(simpl; lia))).
Defined.

(** Four rows sharing one hash, one cUSD transfer and three cGLD ones: both
    [getFeedEvents] and [getTokenTransactions] emit an event for the group. *)
Lemma four_row_group_cex :
  let rows := [sampleRow "0xq" "0xaaa" "0xbbb" "0xcusd" "1000000000000000000" "cUSD";
               sampleRow "0xq" "0xaaa" "0xbbb" "0xgold" "1" "cGLD";
               sampleRow "0xq" "0xaaa" "0xbbb" "0xgold" "2" "cGLD";
               sampleRow "0xq" "0xaaa" "0xbbb" "0xgold" "3" "cGLD"] in
  length (groupByHash rows) = 1%nat /\ length rows = 4%nat /\
  match snd (getFeedEvents "0xfaucet" "0xrewards" (fun c => c) sampleAddresses sampleAPI
               "0xaaa" rows) with
  | Ok [_] => True
  | _ => False
  end /\
  match snd (getTokenTransactions "0xfaucet" "0xrewards" (fun c => c) sampleAddresses sampleAPI
               "0xaaa" "cUSD" rows) with
  | Ok [_] => True
  | _ => False
  end.
Proof. vm_compute. repeat split. Qed.

Lemma token_feed_stable_gate_witness :
  snd (getTokenTransactions "0xfaucet" "0xrewards" (fun c => c) sampleAddresses sampleAPI
         "0xaaa" "cGLD" [goldRow]) = Ok [] /\
  length (stableTokenFilter sampleAPI [feeTransfer; feeLegValidator; feeLegCommunity]) = 3%nat.
Proof.
  destruct (token_feed_stable_gate "0xfaucet" "0xrewards" (fun c => c) sampleAPI "cGLD")
    as [H1 H2].
  split.
  - apply (H2 sampleAddresses "0xaaa" goldRow). vm_compute. reflexivity.
  - destruct (tokenEventOf "0xfaucet" "0xrewards" (fun c => c) sampleAPI "0xaaa" "cUSD"
                ("0xf", [feeTransfer; feeLegValidator; feeLegCommunity])) as [[e|]|] eqn:He.
    + destruct (H1 "0xaaa" "0xf" [feeTransfer; feeLegValidator; feeLegCommunity] e
                   ltac:(simpl; lia) He) as [Hl|Hl];
        [vm_compute in Hl; discriminate | exact Hl].
    + vm_compute in He. discriminate.
    + vm_compute in He. discriminate.
Defined.

Lemma ensureTokenAddresses_idempotent_witness :
  ensureTokenAddresses sampleAddresses sampleAPI = (sampleAPI, []).
Proof.
  exact (proj1 (ensureTokenAddresses_idempotent sampleAddresses sampleAPI _
                  "0xatt" "0xesc" "0xgold" "0xcusd" eq_refl
                  eq_refl ltac:(discriminate) eq_refl ltac:(discriminate)
                  eq_refl ltac:(discriminate) eq_refl ltac:(discriminate))).
Defined.

(** The same cUSD transfer of time 1600 is reported at 1600 by
    [getFeedEvents] but at 1600000 by [getTokenTransactions], whose block is
    the string "42". *)
Lemma token_feed_milliseconds_cex :
  timeStamp feeTransfer = "1600" /\
  match snd (getFeedEvents "0xfaucet" "0xrewards" (fun c => c) sampleAddresses sampleAPI
               "0xaaa" [feeTransfer]),
        snd (getTokenTransactions "0xfaucet" "0xrewards" (fun c => c) sampleAddresses sampleAPI
               "0xaaa" "cUSD" [feeTransfer]) with
  | Ok [EvTransfer x], Ok [TokTransfer y] =>
      tr_timestamp x = 1600 /\ tt_timestamp y = 1600000 /\ tt_block y = "42"
  | _, _ => False
  end.
Proof. vm_compute. repeat split. Qed.

Lemma event_timestamp_units_witness :
  exists e,
    tokenEventOf "0xfaucet" "0xrewards" (fun c => c) sampleAPI "0xaaa" "cUSD"
      ("0xf", [feeTransfer]) = Ok (Some e) /\
    tok_timestamp e = 1600000.
Proof.
  eexists; split; [reflexivity|].
  match goal with
  | |- tok_timestamp ?e = _ =>
      destruct (event_timestamp_units "0xfaucet" "0xrewards" (fun c => c) sampleAPI "0xaaa"
                  "cUSD" "0xf" [feeTransfer] []) as (_ & _ & H3);
      destruct (H3 e eq_refl) as (t & Hsel & Hts & _)
  end.
  vm_compute in Hsel. injection Hsel as <-. rewrite Hts. reflexivity.
Defined.

Lemma address_comparisons_case_insensitive_witness :
  toLowerCase "0xAAA" = toLowerCase "0xaaa" /\
  map lowerRow [exchangeOut; exchangeBack] =
    map lowerRow [sampleRow "0xh" "0xaaa" "0xCCC" "0xCUSD" "5000000000000000000" "cUSD";
                  exchangeBack] /\
  getFeedEvents "0xfaucet" "0xrewards" (fun c => c) sampleAddresses sampleAPI
    "0xAAA" [exchangeOut; exchangeBack] =
  getFeedEvents "0xfaucet" "0xrewards" (fun c => c) sampleAddresses sampleAPI
    "0xaaa" [sampleRow "0xh" "0xaaa" "0xCCC" "0xCUSD" "5000000000000000000" "cUSD"; exchangeBack].
Proof.
  split; [vm_compute; reflexivity|]. split; [vm_compute; reflexivity|].
  exact (proj1 (proj2 (address_comparisons_case_insensitive "0xfaucet" "0xrewards" (fun c => c)
                         sampleAddresses sampleAPI)
                  "0xAAA" "0xaaa" "cUSD" [exchangeOut; exchangeBack]
                  [sampleRow "0xh" "0xaaa" "0xCCC" "0xCUSD" "5000000000000000000" "cUSD";
                   exchangeBack]
                  ltac:(vm_compute; reflexivity) ltac:(vm_compute; reflexivity))).
Defined.

Lemma getFeedEvents_one_per_hash_witness :
  exists out,
    snd (getFeedEvents "0xfaucet" "0xrewards" (fun c => c) sampleAddresses sampleAPI "0xaaa"
           [exchangeOut; exchangeBack; goldRow]) = Ok out /\ length out = 2%nat.
Proof.
  eexists; split; [reflexivity|].
  match goal with
  | |- length ?o = _ =>
      destruct (getFeedEvents_one_per_hash "0xfaucet" "0xrewards" (fun c => c) sampleAddresses
                  sampleAPI "0xaaa" [exchangeOut; exchangeBack; goldRow] o eq_refl)
        as (_ & _ & Hlen)
  end.
  rewrite Hlen. vm_compute. reflexivity.
Defined.

Lemma getFeedRewards_rows_witness :
  exists out,
    snd (getFeedRewards "0xrewards" (fun c => c) sampleAddresses sampleAPI [rewardRow; goldRow]) =
      Ok out /\ exists rs, Permutation rs out /\ length rs = 1%nat.
Proof.
  eexists; split; [reflexivity|].
  match goal with
  | |- exists rs, Permutation rs ?o /\ _ =>
      destruct (getFeedRewards_rows "0xrewards" (fun c => c) sampleAddresses sampleAPI
                  [rewardRow; goldRow] o eq_refl) as (rs & Hp & Hf)
  end.
  exists rs. split; [exact Hp|]. apply Forall2_length in Hf. rewrite <- Hf. vm_compute. reflexivity.
Defined.

Lemma resolveTransferEventType_counterparty_witness :
  resolveTransferEventType "0xfaucet" "0xrewards" "0xaaa" "0xbbb" "0xaaa" "0xatt" "0xesc" =
    Ok (SENT, "0xbbb") /\
  directionOk "0xaaa" "0xbbb" "0xaaa" SENT "0xbbb".
Proof.
  split; [reflexivity|].
  exact (resolveTransferEventType_counterparty "0xfaucet" "0xrewards" "0xaaa" "0xbbb" "0xaaa"
           "0xatt" "0xesc" SENT "0xbbb" eq_refl).
Defined.

Lemma token_transfer_amount_witness :
  exists x,
    tokenEventOf "0xfaucet" "0xrewards" (fun c => c) sampleAPI "0xaaa" "cUSD"
      ("0xf", [feeTransfer]) = Ok (Some (TokTransfer x)) /\
    am_value (tt_amount x) == inject_Z (-3) / inject_Z (10 ^ 18).
Proof.
  eexists; split; [reflexivity|].
  match goal with
  | |- am_value (tt_amount ?x) == _ =>
      destruct (token_transfer_amount "0xfaucet" "0xrewards" (fun c => c) sampleAPI "0xaaa" "cUSD"
                  "0xf" [feeTransfer] x eq_refl) as (event & Hsel & _ & _ & Hv & _)
  end.
  vm_compute in Hsel. injection Hsel as <-. rewrite Hv. vm_compute. reflexivity.
Defined.

Lemma token_self_transfer_received_negative_witness :
  exists x,
    tokenEventOf "0xfaucet" "0xrewards" (fun c => c) sampleAPI "0xaaa" "cUSD"
      ("0xs", [selfRow]) = Ok (Some (TokTransfer x)) /\
    tt_type x = RECEIVED /\ am_value (tt_amount x) == inject_Z (-7) / inject_Z (10 ^ 18).
Proof.
  destruct (token_self_transfer_received_negative "0xfaucet" "0xrewards" (fun c => c) sampleAPI
              "0xaaa" "cUSD" "0xs" "0xatt" "0xesc" selfRow
              ltac:(vm_compute; reflexivity) ltac:(vm_compute; reflexivity)
              ltac:(vm_compute; reflexivity) ltac:(vm_compute; discriminate)
              ltac:(vm_compute; discriminate) ltac:(vm_compute; reflexivity)
              ltac:(vm_compute; discriminate) ltac:(vm_compute; reflexivity)
              ltac:(vm_compute; discriminate))
    as (x & Hx & Ht & _ & Hv).
  exists x. split; [exact Hx|]. split; [exact Ht|]. rewrite Hv. vm_compute. reflexivity.
Defined.

Lemma token_feed_output_witness :
  exists out,
    snd (getTokenTransactions "0xfaucet" "0xrewards" (fun c => c) sampleAddresses sampleAPI
           "0xaaa" "cUSD" [exchangeOut; exchangeBack; feeTransfer; goldRow]) = Ok out /\
    Forall (fun e => currencyCode (tok_amount e) = "cUSD") out /\ length out = 2%nat.
Proof.
  eexists; split; [reflexivity|].
  match goal with
  | |- Forall _ ?o /\ _ =>
      destruct (token_feed_output "0xfaucet" "0xrewards" (fun c => c) sampleAddresses sampleAPI
                  "0xaaa" "cUSD" [exchangeOut; exchangeBack; feeTransfer; goldRow] o eq_refl)
        as (Hc & _ & _)
  end.
  split; [exact Hc|]. vm_compute. reflexivity.
Defined.

Lemma feeds_error_kinds_witness :
  snd (getFeedEvents "0xfaucet" "0xrewards" (fun c => c) sampleAddresses sampleAPI "0xaaa"
         [unknownTokenRow]) = Err (NoTokenCorresponding "0xunknown") /\
  ((exists k, NoTokenCorresponding "0xunknown" = NoTokenCorresponding k) \/
   NoTokenCorresponding "0xunknown" = NoValidEventType).
Proof.
  split; [vm_compute; reflexivity|].
  destruct (feeds_error_kinds "0xfaucet" "0xrewards" (fun c => c) sampleAddresses sampleAPI
              "0xaaa" "cUSD" [unknownTokenRow] (NoTokenCorresponding "0xunknown")
              ltac:(vm_compute; discriminate) ltac:(vm_compute; discriminate)) as [H1 _].
  apply H1. vm_compute. reflexivity.
Defined.

Lemma feed_transfer_first_row_witness :
  exists x,
    feedEventOf "0xfaucet" "0xrewards" (fun c => c) sampleAPI "0xaaa" ("0xg", [goldRow]) =
      Ok (Some (EvTransfer x)) /\ tr_value x = Finite 1.
Proof.
  eexists; split; [reflexivity|].
  match goal with
  | |- tr_value ?x = _ =>
      destruct (feed_transfer_first_row "0xfaucet" "0xrewards" (fun c => c) sampleAPI "0xaaa" "0xg"
                  [goldRow] x eq_refl) as (t & rest & Ht & _ & _ & Hv & _)
  end.
  injection Ht as <- _. rewrite Hv. vm_compute. reflexivity.
Defined.
